(** * Virtual folder service: block cache, fetch coordinator, folder service

    A shallow embedding of the virtual folder service of the repository
    (package [model], type [virtualFolderSyncthingService]) and of the
    in-memory block storage (package [blockstorage]), together with the
    properties the specification states about them. *)

From Stdlib Require Import ZArith Strings.Byte Ascii String.
From stdpp Require Import gmap strings list.

Open Scope string_scope.
Open Scope list_scope.

(** ** Bytes and Go slices of bytes *)

Abbreviation byte := Byte.byte.
Abbreviation bytes := (list Byte.byte).

(** ** Package encoding/hex: [hex.EncodeToString] *)

Module hex.

Definition hextable : string := "0123456789abcdef".

(** [hextable[i]] for a nibble [i]. *)
Definition hexchar (i : N) : ascii :=
  match String.get (N.to_nat i) hextable with
  | Some c => c
  | None => "0"%char
  end.

(** One round of the loop of [hex.Encode]:
    [dst[j] = hextable[v>>4]; dst[j+1] = hextable[v&0x0f]]. *)
Definition encode_byte (v : byte) (rest : string) : string :=
  String (hexchar (N.shiftr (Byte.to_N v) 4))
    (String (hexchar (N.land (Byte.to_N v) 15)) rest).

Fixpoint EncodeToString (src : bytes) : string :=
  match src with
  | [] => ""
  | v :: src' => encode_byte v (EncodeToString src')
  end.

(** [fromHexChar]: the value of a hex digit, of either case. *)
Definition fromHexChar (c : ascii) : option N :=
  let n := N_of_ascii c in
  if (48 <=? n)%N && (n <=? 57)%N then Some (n - 48)%N
  else if (97 <=? n)%N && (n <=? 102)%N then Some (n - 97 + 10)%N
  else if (65 <=? n)%N && (n <=? 70)%N then Some (n - 65 + 10)%N
  else None.

(** One round of the loop of [hex.Decode]:
    [dst[j] = (a << 4) | b] for the values [a], [b] of two digits. *)
Definition decode_byte (a b : ascii) : option byte :=
  match fromHexChar a, fromHexChar b with
  | Some hi, Some lo => Byte.of_N (N.lor (N.shiftl hi 4) lo)
  | _, _ => None
  end.

(** [hex.DecodeString]; [None] stands for its errors (an odd length, a
    character that is no hex digit). *)
Fixpoint DecodeString (s : string) : option bytes :=
  match s with
  | "" => Some []
  | String a (String b s') =>
      match decode_byte a b, DecodeString s' with
      | Some v, Some rest => Some (v :: rest)
      | _, _ => None
      end
  | String _ "" => None
  end.

End hex.

(** ** Package blockstorage: the in-memory hashed block map *)

Module blockstorage.

(** The interface [HashBlockStorageI] the folder service holds its block
    cache through: [Get(hash) (data, ok)], [Set(hash, data)],
    [Delete(hash)]. A backend is a value of [C]; a method that mutates
    the backend returns the new one. *)
Class HashBlockStorageI (C : Type) := {
  Get : C → bytes → bytes * bool;
  Set_ : C → bytes → bytes → C;
  Delete : C → bytes → C
}.

Definition hashToStringMapKey (hash : bytes) : string :=
  hex.EncodeToString hash.

Record HashedBlockMapInMemory := mkHashedBlockMapInMemory {
  blockMap : gmap string bytes
}.

Definition NewHashedBlockMapInMemory : HashedBlockMapInMemory :=
  {| blockMap := ∅ |}.

(** [data, ok = hm.blockMap[key]]: a missing key gives the zero value
    (the nil slice) and [false]. *)
Definition HashedBlockMapInMemory_Get (hm : HashedBlockMapInMemory)
    (hash : bytes) : bytes * bool :=
  match blockMap hm !! hashToStringMapKey hash with
  | Some data => (data, true)
  | None => ([], false)
  end.

Definition HashedBlockMapInMemory_Set (hm : HashedBlockMapInMemory)
    (hash data : bytes) : HashedBlockMapInMemory :=
  {| blockMap := <[hashToStringMapKey hash := data]> (blockMap hm) |}.

Definition HashedBlockMapInMemory_Delete (hm : HashedBlockMapInMemory)
    (hash : bytes) : HashedBlockMapInMemory :=
  {| blockMap := delete (hashToStringMapKey hash) (blockMap hm) |}.

#[global] Instance HashedBlockMapInMemory_storage
  : HashBlockStorageI HashedBlockMapInMemory :=
  {| Get := HashedBlockMapInMemory_Get;
     Set_ := HashedBlockMapInMemory_Set;
     Delete := HashedBlockMapInMemory_Delete |}.

(** Calls on the backend, as a client issues them one after another. *)
Inductive op :=
| OpGet (hash : bytes)
| OpSet (hash data : bytes)
| OpDelete (hash : bytes).

Definition run_op (hm : HashedBlockMapInMemory) (o : op)
  : HashedBlockMapInMemory :=
  match o with
  | OpGet hash => let _ := HashedBlockMapInMemory_Get hm hash in hm
  | OpSet hash data => HashedBlockMapInMemory_Set hm hash data
  | OpDelete hash => HashedBlockMapInMemory_Delete hm hash
  end.

Definition run_ops (hm : HashedBlockMapInMemory) (os : list op)
  : HashedBlockMapInMemory :=
  foldl run_op hm os.

(** The call writes (sets or deletes) the entry of [hash]. *)
Definition writes_hash (hash : bytes) (o : op) : Prop :=
  match o with
  | OpGet _ => False
  | OpSet h _ | OpDelete h => h = hash
  end.

End blockstorage.

(** ** Package strings of the Go library, on byte strings *)

Module gostrings.

(** [s[n:]] and [s[:n]]. *)
Fixpoint string_drop (n : nat) (s : string) : string :=
  match n, s with
  | 0, _ => s
  | S n', String _ s' => string_drop n' s'
  | S _, "" => ""
  end.

Fixpoint string_take (n : nat) (s : string) : string :=
  match n, s with
  | 0, _ => ""
  | S n', String c s' => String c (string_take n' s')
  | S _, "" => ""
  end.

Fixpoint HasPrefix (s prefix : string) {struct prefix} : bool :=
  match prefix, s with
  | "", _ => true
  | String p prefix', String c s' =>
      if Ascii.eqb p c then HasPrefix s' prefix' else false
  | String _ _, "" => false
  end.

(** [CutPrefix(s, prefix) (after string, found bool)]. *)
Definition CutPrefix (s prefix : string) : string * bool :=
  if HasPrefix s prefix
  then (string_drop (String.length prefix) s, true)
  else (s, false).

(** [Index(s, substr)]: the index of the first instance of [substr] in
    [s]; [None] stands for Go's [-1]. *)
Fixpoint Index (s substr : string) : option nat :=
  if HasPrefix s substr then Some 0
  else match s with
       | "" => None
       | String _ s' => S <$> Index s' substr
       end.

(** The loop of [genSplit] for a non-empty separator:
    [for i < n { m := Index(s, sep); if m < 0 { break };
                 a[i] = s[:m]; s = s[m+len(sep):]; i++ }; a[i] = s].
    Go bounds the number of rounds by [n-1], where [n] is at most
    [len(s)+1]. *)
Fixpoint genSplit (rounds : nat) (s sep : string) : list string :=
  match rounds with
  | 0 => [s]
  | S rounds' =>
      match Index s sep with
      | None => [s]
      | Some m =>
          string_take m s
            :: genSplit rounds' (string_drop (m + String.length sep) s) sep
      end
  end.

(** [explode]: the split after each character, for ASCII text. *)
Fixpoint explode (s : string) : list string :=
  match s with
  | "" => []
  | String c s' => String c "" :: explode s'
  end.

Definition Split (s sep : string) : list string :=
  match sep with
  | "" => explode s
  | String _ _ => genSplit (String.length s) s sep
  end.

End gostrings.

(** ** Packages protocol, events and config: the declarations the folder
  service uses *)

Module protocol.

(** Modelled from the spec: [BlockInfo] of package protocol, whose
    declaration is not part of the sources: [offset], [size], [hash]. *)
Record BlockInfo := mkBlockInfo {
  Offset : Z;
  Size : Z;
  Hash : bytes
}.

(** Modelled from the spec: [FileInfo] of package protocol, whose
    declaration is not part of the sources: [name], [size], [modTime],
    [isDirectory] and the ordered sequence of blocks. *)
Record FileInfo := mkFileInfo {
  Name : string;
  FileInfo_Size : Z;
  ModifiedNs : Z;
  FileInfo_IsDirectory : bool;
  Blocks : list BlockInfo
}.

(** The methods of [FileIntf] that [Scan] calls on a truncated entry. *)
Record FileIntf := mkFileIntf {
  IsDirectory : bool;
  FileName : string;
  FileSize : Z;
  ModTime : Z
}.

Inductive DeviceID :=
| LocalDeviceID
| RemoteDeviceID (short : N).

(** Go [error] values: the sentinel [ErrNoSuchFile] and the errors made
    by [errors.New]. *)
Inductive error :=
| ErrNoSuchFile
| errors_New (msg : string).

End protocol.

Module events.

Inductive EventType :=
| LocalIndexUpdated
| RemoteIndexUpdated
| StateChanged.

(** The values stored in the [map[string]interface{}] of an event. *)
Inductive value :=
| VString (s : string)
| VInt (n : Z)
| VInt64 (n : Z)
| VStrings (l : list string).

End events.

Module config.

(** Modelled from the spec: the order policies of a folder (alphabetic,
    oldest first, newest first, smallest first, largest first); the
    declaration of [PullOrder] is not part of the sources. *)
Inductive PullOrder :=
| PullOrderAlphabetic
| PullOrderSmallestFirst
| PullOrderLargestFirst
| PullOrderOldestFirst
| PullOrderNewestFirst.

End config.

(** ** The job queue *)

Module jobQueue.

Record jobQueueEntry := mkEntry {
  name : string;
  size : Z;
  modified : Z
}.

(** Modelled from the spec: the type [jobQueue] and its methods are not
    part of the sources. The queue holds the pending jobs in order and the
    set of names in progress; a name is known when it is pending or in
    progress. Per job: absent, then pending by [PushIfNew], then in
    progress by [Pop], then absent again by [Done]. *)
Record t := mkQueue {
  queued : list jobQueueEntry;
  progress : gset string
}.

Definition newJobQueue : t := {| queued := []; progress := ∅ |}.

Definition is_pending (q : t) (file : string) : bool :=
  bool_decide (file ∈ name <$> queued q).

Definition is_in_progress (q : t) (file : string) : bool :=
  bool_decide (file ∈ progress q).

(** Modelled from the spec: [PushIfNew] enqueues the job unless the name is
    already pending or in progress, and returns whether a new entry was
    added. *)
Definition PushIfNew (q : t) (file : string) (sz mod_ : Z) : t * bool :=
  if is_pending q file || is_in_progress q file
  then (q, false)
  else ({| queued := queued q ++ [mkEntry file sz mod_];
           progress := progress q |}, true).

(** Modelled from the spec: [Pop] does not block; it returns
    [(_, false)] on an empty queue, and otherwise moves the first pending
    job to the jobs in progress. *)
Definition Pop (q : t) : string * bool * t :=
  match queued q with
  | [] => ("", false, q)
  | e :: rest =>
      (name e, true,
       {| queued := rest; progress := {[name e]} ∪ progress q |})
  end.

(** Modelled from the spec: [Done] takes the job out of the jobs in
    progress. *)
Definition Done (q : t) (file : string) : t :=
  {| queued := queued q; progress := progress q ∖ {[file]} |}.

(** The sort key comparison of an order policy. *)
Definition entry_leb (order : config.PullOrder) (a b : jobQueueEntry) : bool :=
  match order with
  | config.PullOrderAlphabetic => String.leb (name a) (name b)
  | config.PullOrderSmallestFirst => (size a <=? size b)%Z
  | config.PullOrderLargestFirst => (size b <=? size a)%Z
  | config.PullOrderOldestFirst => (modified a <=? modified b)%Z
  | config.PullOrderNewestFirst => (modified b <=? modified a)%Z
  end.

Fixpoint insert_sorted (order : config.PullOrder) (e : jobQueueEntry)
    (l : list jobQueueEntry) : list jobQueueEntry :=
  match l with
  | [] => [e]
  | x :: l' =>
      if entry_leb order x e then x :: insert_sorted order e l'
      else e :: x :: l'
  end.

(** Modelled from the spec: [SortAccordingToConfig] sorts the pending jobs
    by the order policy; the sort is stable and leaves the jobs in
    progress alone. *)
Definition SortAccordingToConfig (q : t) (order : config.PullOrder) : t :=
  {| queued := foldl (λ acc e, insert_sorted order e acc) [] (queued q);
     progress := progress q |}.

(** No name is pending twice, and no name is both pending and in
    progress. *)
Definition wf (q : t) : Prop :=
  NoDup (name <$> queued q) ∧
  ∀ file, file ∈ name <$> queued q → file ∉ progress q.

End jobQueue.

(** ** The collaborators of the folder service *)

(** The index database, as the folder service consumes it: [db.FileSet]
    with [Snapshot], [UpdateOne] and [Sequence], and [db.Snapshot] with
    [GetGlobal] and [WithNeedTruncated]. [WithNeedTruncated] is given by the
    entries it visits, in order (the visitor of [Scan] never stops the
    iteration). *)
Class IndexI (FileSet Snapshot : Type) := {
  fset_Snapshot : FileSet → Snapshot + protocol.error;
  fset_UpdateOne :
    FileSet → protocol.DeviceID → protocol.FileInfo → FileSet;
  fset_Sequence : FileSet → protocol.DeviceID → Z;
  snap_GetGlobal : Snapshot → string → option protocol.FileInfo;
  snap_WithNeedTruncated :
    Snapshot → protocol.DeviceID → list protocol.FileIntf
}.

(** The replication capability [pullBlockBase(sink, snap, file, block)]. A
    call may depend on and change the state [Net] of the connections; it
    yields the arguments of the calls of [sink] it made, in order, and the
    error it returns. *)
Class ReplicationI (Net Snapshot : Type) := {
  pullBlockBase :
    Net → Snapshot → protocol.FileInfo → protocol.BlockInfo →
    Net * list bytes * option protocol.error
}.

(** Calls on the collaborators, in the order the service makes them. *)
Inductive call :=
| blockCache_Get (hash : bytes) (ok : bool)
| blockCache_Set (hash data : bytes)
| call_pullBlockBase (file : protocol.FileInfo) (block : protocol.BlockInfo)
    (err : option protocol.error)
| queue_PushIfNew (filename : string) (size modified : Z) (wasNew : bool)
| queue_SortAccordingToConfig (order : config.PullOrder)
| queue_Pop (job : string) (ok : bool)
| queue_Done (job : string)
| pending_send (sent : bool)
| call_fset_Snapshot (ok : bool)
| call_snap_Release
| call_snap_GetGlobal (name : string) (ok : bool)
| call_fset_UpdateOne (device : protocol.DeviceID) (fi : protocol.FileInfo)
| call_fset_Sequence (device : protocol.DeviceID) (seq : Z)
| evLogger_Log (t : events.EventType) (data : gmap string events.value).

Definition is_pullBlockBase (c : call) : bool :=
  match c with call_pullBlockBase _ _ _ => true | _ => false end.

Definition is_failed_pull (c : call) : bool :=
  match c with call_pullBlockBase _ _ (Some _) => true | _ => false end.

Definition is_cache_Set (c : call) : bool :=
  match c with blockCache_Set _ _ => true | _ => false end.

Definition is_UpdateOne (c : call) : bool :=
  match c with call_fset_UpdateOne _ _ => true | _ => false end.

Definition is_Log (c : call) : bool :=
  match c with evLogger_Log _ _ => true | _ => false end.

Definition is_Snapshot_acquired (c : call) : bool :=
  match c with call_fset_Snapshot true => true | _ => false end.

Definition is_Done (c : call) : bool :=
  match c with queue_Done _ => true | _ => false end.

Definition is_Release (c : call) : bool :=
  match c with call_snap_Release => true | _ => false end.

(** The hashes the cache was asked for, in order. *)
Definition cache_lookups (l : list call) : list bytes :=
  omap (λ c, match c with blockCache_Get h _ => Some h | _ => None end) l.

(** Snapshots acquired and not released by a sequence of calls. *)
Definition snapshots_held (l : list call) : Z :=
  Z.of_nat (length (filter is_Snapshot_acquired l))
  - Z.of_nat (length (filter is_Release l)).

(** The calls one fetch of the block [b] of the file [fi] consists of: a
    cache hit; a cache miss and a pull that fails; or a cache miss, a pull
    that succeeds and the store of the pulled bytes. *)
Definition fetch_segment (fi : protocol.FileInfo) (b : protocol.BlockInfo)
    (seg : list call) : Prop :=
  seg = [blockCache_Get (protocol.Hash b) true]
  ∨ (∃ e, seg = [blockCache_Get (protocol.Hash b) false;
                 call_pullBlockBase fi b (Some e)])
  ∨ (∃ data, seg = [blockCache_Get (protocol.Hash b) false;
                    call_pullBlockBase fi b None;
                    blockCache_Set (protocol.Hash b) data]).

(** [copy(dst, src)]: the number of bytes copied, and [dst] afterwards. *)
Definition copy (dst src : bytes) : Z * bytes :=
  let n := Nat.min (length dst) (length src) in
  (Z.of_nat n, take n src ++ drop n dst).

(** ** The virtual folder service *)

Section virtualFolder.

Context {C FileSet Snapshot Net : Type}.
Context `{!blockstorage.HashBlockStorageI C}.
Context `{!IndexI FileSet Snapshot}.
Context `{!ReplicationI Net Snapshot}.

(** The struct [virtualFolderSyncthingService] of a running service (the
    block cache is the one [Serve] has created), with the fields of the
    embedded [folderBase] that its methods use. The last two fields are
    not fields of the struct: the state of the connections that
    [pullBlockBase] works on, and the calls made so far. *)
Record virtualFolderSyncthingService := mkService {
  ID : string;
  Order : config.PullOrder;
  fset : FileSet;
  blockCache : C;
  mountPath : string;
  backgroundDownloadPending : nat;
  backgroundDownloadQueue : jobQueue.t;
  net : Net;
  calls : list call
}.

(** [make(chan struct{}, 1)]. *)
Definition backgroundDownloadPending_cap : nat := 1.

Definition record (c : call) (f : virtualFolderSyncthingService) :=
  mkService (ID f) (Order f) (fset f) (blockCache f) (mountPath f)
    (backgroundDownloadPending f) (backgroundDownloadQueue f) (net f)
    (calls f ++ [c]).

Definition set_blockCache (c : C) (f : virtualFolderSyncthingService) :=
  mkService (ID f) (Order f) (fset f) c (mountPath f)
    (backgroundDownloadPending f) (backgroundDownloadQueue f) (net f)
    (calls f).

Definition set_fset (fs : FileSet) (f : virtualFolderSyncthingService) :=
  mkService (ID f) (Order f) fs (blockCache f) (mountPath f)
    (backgroundDownloadPending f) (backgroundDownloadQueue f) (net f)
    (calls f).

Definition set_net (n : Net) (f : virtualFolderSyncthingService) :=
  mkService (ID f) (Order f) (fset f) (blockCache f) (mountPath f)
    (backgroundDownloadPending f) (backgroundDownloadQueue f) n
    (calls f).

Definition set_backgroundDownloadQueue (q : jobQueue.t)
    (f : virtualFolderSyncthingService) :=
  mkService (ID f) (Order f) (fset f) (blockCache f) (mountPath f)
    (backgroundDownloadPending f) q (net f) (calls f).

Definition set_backgroundDownloadPending (n : nat)
    (f : virtualFolderSyncthingService) :=
  mkService (ID f) (Order f) (fset f) (blockCache f) (mountPath f)
    n (backgroundDownloadQueue f) (net f) (calls f).

(** The calls made between the state [f] and the later state [f']. *)
Definition calls_since (f f' : virtualFolderSyncthingService) : list call :=
  drop (length (calls f)) (calls f').

(** The fields a fetch of blocks leaves alone. *)
Definition same_folder (f f' : virtualFolderSyncthingService) : Prop :=
  ID f' = ID f ∧ Order f' = Order f ∧ fset f' = fset f ∧
  mountPath f' = mountPath f ∧
  backgroundDownloadPending f' = backgroundDownloadPending f ∧
  backgroundDownloadQueue f' = backgroundDownloadQueue f.

(** The closure [func(blockData []byte) { data = blockData }] run on each
    call of the sink: [data] ends as the last argument, if any. *)
Definition run_sink (data : bytes) (sunk : list bytes) : bytes :=
  foldl (λ _ blockData, blockData) data sunk.

Definition GetBlockDataFromCacheOrDownload
    (snap : Snapshot) (file : protocol.FileInfo)
    (block : protocol.BlockInfo) (vFSS : virtualFolderSyncthingService)
  : (bytes * bool) * virtualFolderSyncthingService :=
  let '(data, ok) := blockstorage.Get (blockCache vFSS) (protocol.Hash block) in
  let vFSS := record (blockCache_Get (protocol.Hash block) ok) vFSS in
  if negb ok then
    let '(net', sunk, err) := pullBlockBase (net vFSS) snap file block in
    let data := run_sink data sunk in
    let vFSS :=
      record (call_pullBlockBase file block err) (set_net net' vFSS) in
    match err with
    | Some _ => (([], false), vFSS)
    | None =>
        let vFSS :=
          record (blockCache_Set (protocol.Hash block) data)
            (set_blockCache
               (blockstorage.Set_ (blockCache vFSS) (protocol.Hash block) data)
               vFSS) in
        ((data, true), vFSS)
    end
  else ((data, true), vFSS).

(** The non-blocking send
    [select { case f.backgroundDownloadPending <- struct{}{}: default: }]. *)
Definition send_pending (f : virtualFolderSyncthingService) :=
  if (backgroundDownloadPending f <? backgroundDownloadPending_cap)%nat
  then record (pending_send true)
         (set_backgroundDownloadPending (S (backgroundDownloadPending f)) f)
  else record (pending_send false) f.

Definition RequestBackgroundDownload (filename : string) (size modified : Z)
    (f : virtualFolderSyncthingService) : virtualFolderSyncthingService :=
  let '(q, wasNew) :=
    jobQueue.PushIfNew (backgroundDownloadQueue f) filename size modified in
  let f := record (queue_PushIfNew filename size modified wasNew)
             (set_backgroundDownloadQueue q f) in
  if negb wasNew then f
  else
    let f := record (queue_SortAccordingToConfig (Order f))
               (set_backgroundDownloadQueue
                  (jobQueue.SortAccordingToConfig
                     (backgroundDownloadQueue f) (Order f)) f) in
    send_pending f.

(** The loop [for _, bi := range fi.Blocks] of the worker:
    [_, ok := f.GetBlockDataFromCacheOrDownload(snap, fi, bi);
     all_ok = all_ok && ok]. *)
Fixpoint fetch_blocks (snap : Snapshot) (fi : protocol.FileInfo)
    (blocks : list protocol.BlockInfo) (all_ok : bool)
    (f : virtualFolderSyncthingService)
  : bool * virtualFolderSyncthingService :=
  match blocks with
  | [] => (all_ok, f)
  | bi :: blocks' =>
      let '((_, ok), f) := GetBlockDataFromCacheOrDownload snap fi bi f in
      fetch_blocks snap fi blocks' (all_ok && ok) f
  end.

(** The payload of the event the worker logs. *)
Definition LocalIndexUpdated_data (folder : string) (filename : string)
    (seq : Z) : gmap string events.value :=
  {[ "folder" := events.VString folder;
     "items" := events.VInt 1;
     "filenames" := events.VStrings ([] ++ [filename]);
     "sequence" := events.VInt64 seq;
     "version" := events.VInt64 seq ]}.

(** The body of the function literal the worker runs for a job, up to its
    return; the deferred call is in [process_job]. *)
Definition process_job_body (job : string)
    (f : virtualFolderSyncthingService) : virtualFolderSyncthingService :=
  match fset_Snapshot (fset f) with
  | inr _ => record (call_fset_Snapshot false) f
  | inl snap =>
      let f := record (call_fset_Snapshot true) f in
      match snap_GetGlobal snap job with
      | None => record (call_snap_GetGlobal job false) f
      | Some fi =>
          let f := record (call_snap_GetGlobal job true) f in
          let '(all_ok, f) :=
            fetch_blocks snap fi (protocol.Blocks fi) true f in
          if negb all_ok then f
          else
            let f := record (call_fset_UpdateOne protocol.LocalDeviceID fi)
                       (set_fset
                          (fset_UpdateOne (fset f) protocol.LocalDeviceID fi)
                          f) in
            let seq := fset_Sequence (fset f) protocol.LocalDeviceID in
            let f := record (call_fset_Sequence protocol.LocalDeviceID seq) f in
            record (evLogger_Log events.LocalIndexUpdated
                      (LocalIndexUpdated_data (ID f) (protocol.Name fi) seq))
              f
      end
  end.

(** The exit paths of that body, with the calls made on each and the index
    afterwards: the snapshot cannot be taken; the name is absent from the
    global index; some block fetch fails; the file is published. *)
Inductive job_path (job : string) (f : virtualFolderSyncthingService)
  : list call → FileSet → Prop :=
| path_snapshot_error err :
    fset_Snapshot (fset f) = inr err →
    job_path job f [call_fset_Snapshot false] (fset f)
| path_absent snap :
    fset_Snapshot (fset f) = inl snap →
    snap_GetGlobal snap job = None →
    job_path job f
      [call_fset_Snapshot true; call_snap_GetGlobal job false] (fset f)
| path_block_failure snap fi segs :
    fset_Snapshot (fset f) = inl snap →
    snap_GetGlobal snap job = Some fi →
    Forall2 (fetch_segment fi) (protocol.Blocks fi) segs →
    existsb is_failed_pull (concat segs) = true →
    job_path job f
      ([call_fset_Snapshot true; call_snap_GetGlobal job true] ++ concat segs)
      (fset f)
| path_published snap fi segs fs' seq :
    fset_Snapshot (fset f) = inl snap →
    snap_GetGlobal snap job = Some fi →
    Forall2 (fetch_segment fi) (protocol.Blocks fi) segs →
    existsb is_failed_pull (concat segs) = false →
    fs' = fset_UpdateOne (fset f) protocol.LocalDeviceID fi →
    seq = fset_Sequence fs' protocol.LocalDeviceID →
    job_path job f
      ([call_fset_Snapshot true; call_snap_GetGlobal job true] ++ concat segs
       ++ [call_fset_UpdateOne protocol.LocalDeviceID fi;
           call_fset_Sequence protocol.LocalDeviceID seq;
           evLogger_Log events.LocalIndexUpdated
             (LocalIndexUpdated_data (ID f) (protocol.Name fi) seq)])
      fs'.

(** [func() { defer f.backgroundDownloadQueue.Done(job); ... }()]: the
    deferred call runs when the body returns, on whichever path. *)
Definition process_job (job : string)
    (f : virtualFolderSyncthingService) : virtualFolderSyncthingService :=
  let f := process_job_body job f in
  record (queue_Done job)
    (set_backgroundDownloadQueue
       (jobQueue.Done (backgroundDownloadQueue f) job) f).

(** One round of
    [for job, ok := Pop(); ok; job, ok = Pop() { func() {...}() }]:
    the result is [false] when [Pop] reports an empty queue and the loop
    ends. *)
Definition drain_round (f : virtualFolderSyncthingService)
  : bool * virtualFolderSyncthingService :=
  let '(job, ok, q) := jobQueue.Pop (backgroundDownloadQueue f) in
  let f := record (queue_Pop job ok) (set_backgroundDownloadQueue q f) in
  if ok then (true, process_job job f) else (false, f).

(** The visitor [Scan] passes to [WithNeedTruncated]. *)
Definition Scan_visit (snap : Snapshot) (vf : virtualFolderSyncthingService)
    (f : protocol.FileIntf) : virtualFolderSyncthingService :=
  if protocol.IsDirectory f then
    match snap_GetGlobal snap (protocol.FileName f) with
    | Some fi =>
        let vf := record (call_snap_GetGlobal (protocol.FileName f) true) vf in
        record (call_fset_UpdateOne protocol.LocalDeviceID fi)
          (set_fset (fset_UpdateOne (fset vf) protocol.LocalDeviceID fi) vf)
    | None => record (call_snap_GetGlobal (protocol.FileName f) false) vf
    end
  else
    RequestBackgroundDownload (protocol.FileName f) (protocol.FileSize f)
      (protocol.ModTime f) vf.

Definition Scan (subs : list string) (vf : virtualFolderSyncthingService)
  : option protocol.error * virtualFolderSyncthingService :=
  match fset_Snapshot (fset vf) with
  | inr err => (Some err, record (call_fset_Snapshot false) vf)
  | inl snap =>
      let vf := record (call_fset_Snapshot true) vf in
      (None,
       foldl (Scan_visit snap) vf
         (snap_WithNeedTruncated snap protocol.LocalDeviceID))
  end.

Definition ScheduleScan (vf : virtualFolderSyncthingService)
  : virtualFolderSyncthingService :=
  snd (Scan [] vf).

Definition GetHashBlockData (hash response_data : bytes)
    (vf : virtualFolderSyncthingService)
  : (Z * option protocol.error) * bytes * virtualFolderSyncthingService :=
  let '(data, ok) := blockstorage.Get (blockCache vf) hash in
  let vf := record (blockCache_Get hash ok) vf in
  if negb ok then ((0%Z, Some protocol.ErrNoSuchFile), response_data, vf)
  else
    let '(n, response_data) := copy response_data data in
    ((n, None), response_data, vf).

End virtualFolder.

Arguments virtualFolderSyncthingService : clear implicits.

(** ** [Serve]: the block cache and the mount path of a folder *)

Section Serve.

Context {C : Type}.

(** [blockstorage.NewGoCloudUrlStorage(ctx, blobUrl)] and
    [os.MkdirAll(myDir, 0o777)], which are not part of the sources. *)
Variable NewGoCloudUrlStorage : string → C.
Variable MkdirAll : string → option protocol.error.

Definition dquote : string := String (ascii_of_nat 34) "".

(** The error [Serve] makes with [errors.New] for a descriptor that does not
    split into two parts; its message names the separator in double
    quotes. *)
Definition err_missing_mount_at : protocol.error :=
  protocol.errors_New
    ("missing " +:+ dquote +:+ ":mount_at:" +:+ dquote
     +:+ " in virtual descriptor").

(** How the first part of [Serve] ends: with [return err], with
    [log.Fatal(err)], which exits the process, or by going on to the
    mount. *)
Inductive Serve_outcome (A : Type) :=
| Serve_return (err : protocol.error)
| Serve_Fatal (err : protocol.error)
| Serve_goes_on (a : A).
Arguments Serve_return {A} err.
Arguments Serve_Fatal {A} err.
Arguments Serve_goes_on {A} a.

(** The body of [if f.blockCache == nil], up to the creation of the
    storage: the result is [(blobUrl, f.mountPath)]. *)
Definition Serve_resolve (Path : string) : Serve_outcome (string * string) :=
  let '(virtual_descriptor, hasVirtualDescriptor) :=
    gostrings.CutPrefix Path ":virtual:" in
  if hasVirtualDescriptor then
    match gostrings.Split virtual_descriptor ":mount_at:" with
    | [part0; part1] => Serve_goes_on (part0, part1)
    | _ => Serve_return err_missing_mount_at
    end
  else
    let myDir := Path +:+ "_BlobStorage" in
    match MkdirAll myDir with
    | Some err => Serve_Fatal err
    | None =>
        Serve_goes_on ("file://" +:+ myDir +:+ "?no_tmp_dir=yes", Path +:+ "R")
    end.

(** [Serve] up to the mount: the fields [blockCache] and [mountPath]
    afterwards. *)
Definition Serve_blockCache (Path : string) (blockCache : option C)
    (mountPath : string) : Serve_outcome (C * string) :=
  match blockCache with
  | Some c => Serve_goes_on (c, mountPath)
  | None =>
      match Serve_resolve Path with
      | Serve_return err => Serve_return err
      | Serve_Fatal err => Serve_Fatal err
      | Serve_goes_on (blobUrl, mountPath) =>
          Serve_goes_on (NewGoCloudUrlStorage blobUrl, mountPath)
      end
  end.

End Serve.

Arguments Serve_return {A} err.
Arguments Serve_Fatal {A} err.
Arguments Serve_goes_on {A} a.

(** ** Test doubles of the collaborators

  A small index database and a scripted peer, on which the service can
  be run. *)

Module fake.

(** An index: the global files by name, the entries the local device
    needs, the files of the local device, its sequence, and whether
    [Snapshot] fails. A snapshot is a copy of the index. *)
Record index := mkIndex {
  global : gmap string protocol.FileInfo;
  need : list protocol.FileIntf;
  local : list protocol.FileInfo;
  sequence : Z;
  closed : bool
}.

#[global] Instance index_IndexI : IndexI index index := {|
  fset_Snapshot fs :=
    if closed fs then inr (protocol.errors_New "database closed") else inl fs;
  fset_UpdateOne fs _ fi :=
    mkIndex (global fs) (need fs) (local fs ++ [fi]) (sequence fs + 1) (closed fs);
  fset_Sequence fs _ := sequence fs;
  snap_GetGlobal snap file := global snap !! file;
  snap_WithNeedTruncated snap _ := need snap
|}.

(** A peer that serves the blocks it has, by hash, and fails for the
    others. *)
#[global] Instance peer_ReplicationI : ReplicationI (gmap string bytes) index := {|
  pullBlockBase peer _ _ block :=
    match peer !! blockstorage.hashToStringMapKey (protocol.Hash block) with
    | Some data => (peer, [data], None)
    | None => (peer, [], Some (protocol.errors_New "no such block"))
    end
|}.

Abbreviation service :=
  (virtualFolderSyncthingService blockstorage.HashedBlockMapInMemory
     index (gmap string bytes)).

Definition H1 : bytes := [x01; xab].
Definition H2 : bytes := [x02; xcd].
Definition D1 : bytes := [x00; x00; x00].
Definition D2 : bytes := [xff].

Definition B1 : protocol.BlockInfo := protocol.mkBlockInfo 0 3 H1.
Definition B2 : protocol.BlockInfo := protocol.mkBlockInfo 3 1 H2.

(** [file.bin], of two blocks. *)
Definition file_bin : protocol.FileInfo :=
  protocol.mkFileInfo "file.bin" 4 1700000000 false [B1; B2].

Definition dir_d : protocol.FileInfo :=
  protocol.mkFileInfo "d" 0 1700000000 true [].

Definition index0 : index :=
  mkIndex {[ "file.bin" := file_bin; "d" := dir_d ]}
    [protocol.mkFileIntf true "d" 0 1700000000;
     protocol.mkFileIntf false "file.bin" 4 1700000000]
    [] 7 false.

(** A service with an empty cache and an empty queue, in front of the
    peer [peer]. *)
Definition service0 (peer : gmap string bytes) : service :=
  mkService "default" config.PullOrderAlphabetic index0
    blockstorage.NewHashedBlockMapInMemory "/tmp/m" 0
    jobQueue.newJobQueue peer [].

(** The same service with [file.bin] pending. *)
Definition service_queued (peer : gmap string bytes) : service :=
  mkService "default" config.PullOrderAlphabetic index0
    blockstorage.NewHashedBlockMapInMemory "/tmp/m" 1
    (jobQueue.mkQueue [jobQueue.mkEntry "file.bin" 4 1700000000] ∅) peer [].

(** The peer has both blocks of [file.bin]; the peer has only the first. *)
Definition peer_full : gmap string bytes :=
  {[ blockstorage.hashToStringMapKey H1 := D1;
     blockstorage.hashToStringMapKey H2 := D2 ]}.

Definition peer_half : gmap string bytes :=
  {[ blockstorage.hashToStringMapKey H1 := D1 ]}.

(** The peer has only the second block of [file.bin]. *)
Definition peer_late : gmap string bytes :=
  {[ blockstorage.hashToStringMapKey H2 := D2 ]}.

End fake.

(** ** Views of the block storage used in the statements *)

#[global] Instance byte_eq_decision : EqDecision Byte.byte := Byte.byte_eq_dec.

(** A lower-case hex digit. *)
Definition is_lower_hex (c : ascii) : bool :=
  let n := N_of_ascii c in
  ((48 <=? n)%N && (n <=? 57)%N) || ((97 <=? n)%N && (n <=? 102)%N).

(** The entry of one hash, as [Get] reports it: the stored bytes, if any. *)
Definition entry_of (r : bytes * bool) : option bytes :=
  if r.2 then Some r.1 else None.

(** What [Get] reports for an entry. *)
Definition Get_result (entry : option bytes) : bytes * bool :=
  match entry with
  | Some data => (data, true)
  | None => ([], false)
  end.

(** What one call does to the entry of [hash]: a [Set] of that hash stores
    the bytes, a [Delete] of that hash removes them, and every other call
    leaves the entry alone. *)
Definition entry_after (hash : bytes) (entry : option bytes)
    (o : blockstorage.op) : option bytes :=
  match o with
  | blockstorage.OpGet _ => entry
  | blockstorage.OpSet h data => if decide (h = hash) then Some data else entry
  | blockstorage.OpDelete h => if decide (h = hash) then None else entry
  end.

(** The cache [c'] holds every block that [c] holds, with the same bytes. *)
Definition cache_extends {C : Type} `{!blockstorage.HashBlockStorageI C}
    (c c' : C) : Prop :=
  ∀ hash data,
    blockstorage.Get c hash = (data, true) →
    blockstorage.Get c' hash = (data, true).

(** ** The loops of a worker, and views of [Scan] *)

Definition is_Pop (c : call) : bool :=
  match c with queue_Pop _ _ => true | _ => false end.

(** The name is pending or in progress. *)
Definition job_is_known (q : jobQueue.t) (file : string) : bool :=
  jobQueue.is_pending q file || jobQueue.is_in_progress q file.

(** The names [PushIfNew] was called with, in order. *)
Definition pushed_names (l : list call) : list string :=
  omap (λ c, match c with
             | queue_PushIfNew filename _ _ _ => Some filename
             | _ => None
             end) l.

(** The calls [Scan] makes: on the index (but for the read of the
    sequence), on [PushIfNew] and the sort of the queue, and the send on
    the channel. *)
Definition is_Scan_call (c : call) : bool :=
  match c with
  | call_fset_Snapshot _ | call_snap_GetGlobal _ _ | call_fset_UpdateOne _ _
  | queue_PushIfNew _ _ _ _ | queue_SortAccordingToConfig _
  | pending_send _ => true
  | _ => false
  end.

Section worker_loop.

Context {C FileSet Snapshot Net : Type}.
Context `{!blockstorage.HashBlockStorageI C}.
Context `{!IndexI FileSet Snapshot}.
Context `{!ReplicationI Net Snapshot}.

(** The loop
    [for job, ok := Pop(); ok; job, ok = Pop() { func() {...}() }]
    of a worker, run for at most [rounds] rounds. *)
Fixpoint drain (rounds : nat) (f : virtualFolderSyncthingService C FileSet Net)
  : virtualFolderSyncthingService C FileSet Net :=
  match rounds with
  | 0 => f
  | S rounds' =>
      let '(ok, f') := drain_round f in
      if ok then drain rounds' f' else f'
  end.

(** That loop, run to its end: a round pops one pending job and adds none,
    so the loop ends by the [Pop] that follows the last pending job. *)
Definition drain_queue (f : virtualFolderSyncthingService C FileSet Net)
  : virtualFolderSyncthingService C FileSet Net :=
  drain (S (length (jobQueue.queued (backgroundDownloadQueue f)))) f.

(** The receive [case <-f.backgroundDownloadPending:] of the [select] of a
    worker: it takes a token from the channel; [None] when the channel is
    empty and the worker waits. *)
Definition receive_pending (f : virtualFolderSyncthingService C FileSet Net)
  : option (virtualFolderSyncthingService C FileSet Net) :=
  match backgroundDownloadPending f with
  | 0 => None
  | S n => Some (set_backgroundDownloadPending n f)
  end.

(** One pass of the outer loop of [Serve_backgroundDownloadTask] of a
    worker whose context is not done: the receive of a token, then the loop
    over the queue. *)
Definition Serve_backgroundDownloadTask_pass
    (f : virtualFolderSyncthingService C FileSet Net)
  : option (virtualFolderSyncthingService C FileSet Net) :=
  match receive_pending f with
  | None => None
  | Some f => Some (drain_queue f)
  end.

(** Between the calls of the service, taken one at a time: the channel
    holds at most one token, the queue is well formed, and a token waits
    whenever a job is pending. *)
Definition wake_inv (f : virtualFolderSyncthingService C FileSet Net) : Prop :=
  (backgroundDownloadPending f ≤ backgroundDownloadPending_cap)%nat ∧
  jobQueue.wf (backgroundDownloadQueue f) ∧
  (jobQueue.queued (backgroundDownloadQueue f) ≠ [] →
   backgroundDownloadPending f = 1).

(** The global files of the directories among the entries [Scan] visits,
    in order. *)
Definition Scan_adopted (snap : Snapshot) : list protocol.FileInfo :=
  omap (λ e : protocol.FileIntf,
          if protocol.IsDirectory e
          then snap_GetGlobal snap (protocol.FileName e)
          else None)
    (snap_WithNeedTruncated snap protocol.LocalDeviceID).

(** The names of the entries [Scan] visits that are no directories, in
    order. *)
Definition Scan_requested (snap : Snapshot) : list string :=
  protocol.FileName <$>
    filter (λ e : protocol.FileIntf, protocol.IsDirectory e = false)
      (snap_WithNeedTruncated snap protocol.LocalDeviceID).

End worker_loop.

(** ** Package net of the Go library: IP addresses

  The type [IP] is a slice of bytes, of length 4 or 16. The definitions
  follow the functions of the Go library that package connections calls. *)

Module net.

Abbreviation IP := bytes.

Definition IPv4len : nat := 4.
Definition IPv6len : nat := 16.

Definition v4InV6Prefix : IP :=
  [x00; x00; x00; x00; x00; x00; x00; x00; x00; x00; xff; xff].

(** [IPv4(a, b, c, d)]: the address in its 16-byte form. *)
Definition IPv4 (a b c d : byte) : IP := v4InV6Prefix ++ [a; b; c; d].

Definition IPv4bcast : IP := IPv4 xff xff xff xff.
Definition IPv4zero : IP := IPv4 x00 x00 x00 x00.
Definition IPv6unspecified : IP := replicate 16 x00.
Definition IPv6loopback : IP := replicate 15 x00 ++ [x01].

(** [ip[i]], as a number. Every use is behind a test of the length, so the
    index is in range. *)
Definition byte_at (ip : IP) (i : nat) : N := Byte.to_N (nth i ip x00).

Fixpoint isZeros (p : bytes) : bool :=
  match p with
  | [] => true
  | b :: p' => if (Byte.to_N b =? 0)%N then isZeros p' else false
  end.

(** [ip.To4()]; [None] stands for the nil slice. *)
Definition To4 (ip : IP) : option IP :=
  if (length ip =? IPv4len)%nat then Some ip
  else if (length ip =? IPv6len)%nat
          && isZeros (take 10 ip)
          && (byte_at ip 10 =? 0xff)%N
          && (byte_at ip 11 =? 0xff)%N
  then Some (drop 12 (take 16 ip))
  else None.

(** [bytealg.Equal]. *)
Fixpoint bytes_Equal (a b : bytes) : bool :=
  match a, b with
  | [], [] => true
  | x :: a', y :: b' => Byte.eqb x y && bytes_Equal a' b'
  | _, _ => false
  end.

(** [ip.Equal(x)]: an IPv4 address and the same address in its 16-byte
    form are equal. *)
Definition Equal (ip x : IP) : bool :=
  if (length ip =? length x)%nat then bytes_Equal ip x
  else if (length ip =? IPv4len)%nat && (length x =? IPv6len)%nat
  then bytes_Equal (take 12 x) v4InV6Prefix && bytes_Equal ip (drop 12 x)
  else if (length ip =? IPv6len)%nat && (length x =? IPv4len)%nat
  then bytes_Equal (take 12 ip) v4InV6Prefix && bytes_Equal (drop 12 ip) x
  else false.

Definition IsUnspecified (ip : IP) : bool :=
  Equal ip IPv4zero || Equal ip IPv6unspecified.

Definition IsLoopback (ip : IP) : bool :=
  match To4 ip with
  | Some ip4 => (byte_at ip4 0 =? 127)%N
  | None => Equal ip IPv6loopback
  end.

Definition IsMulticast (ip : IP) : bool :=
  match To4 ip with
  | Some ip4 => (N.land (byte_at ip4 0) 0xf0 =? 0xe0)%N
  | None => (length ip =? IPv6len)%nat && (byte_at ip 0 =? 0xff)%N
  end.

Definition IsLinkLocalUnicast (ip : IP) : bool :=
  match To4 ip with
  | Some ip4 => (byte_at ip4 0 =? 169)%N && (byte_at ip4 1 =? 254)%N
  | None =>
      (length ip =? IPv6len)%nat
      && (byte_at ip 0 =? 0xfe)%N
      && (N.land (byte_at ip 1) 0xc0 =? 0x80)%N
  end.

Definition IsGlobalUnicast (ip : IP) : bool :=
  ((length ip =? IPv4len)%nat || (length ip =? IPv6len)%nat)
  && negb (Equal ip IPv4bcast)
  && negb (IsUnspecified ip)
  && negb (IsLoopback ip)
  && negb (IsMulticast ip)
  && negb (IsLinkLocalUnicast ip).

(** [JoinHostPort(host, port)]: a host with a colon is taken for a literal
    IPv6 address and put in brackets. *)
Definition JoinHostPort (host port : string) : string :=
  match gostrings.Index host ":" with
  | Some _ => "[" +:+ host +:+ "]:" +:+ port
  | None => host +:+ ":" +:+ port
  end.

Record IPNet := mkIPNet {
  IPNet_IP : IP;
  IPNet_Mask : bytes
}.

Record TCPAddr := mkTCPAddr {
  TCPAddr_IP : IP;
  TCPAddr_Port : Z;
  TCPAddr_Zone : string
}.

Record UDPAddr := mkUDPAddr {
  UDPAddr_IP : IP;
  UDPAddr_Port : Z;
  UDPAddr_Zone : string
}.

Record IPAddr := mkIPAddr {
  IPAddr_IP : IP;
  IPAddr_Zone : string
}.

(** The errors of the resolvers, and [UnknownNetworkError(network)]. *)
Inductive error :=
| ResolveError (msg : string)
| UnknownNetworkError (network : string).

End net.

(** ** Package net/url of the Go library: the fields of a URL *)

Module url.

Record URL := mkURL {
  Scheme : string;
  Opaque : string;
  Host : string;
  Path : string;
  RawQuery : string;
  Fragment : string
}.

(** [copy := *uri; copy.Host = host]. *)
Definition with_Host (host : string) (uri : URL) : URL :=
  mkURL (Scheme uri) (Opaque uri) host (Path uri) (RawQuery uri)
    (Fragment uri).

End url.

(** ** Package connections: the addresses of the local adapters *)

Module connections.

(** [network] is one of the cases of a [switch]. *)
Definition is_case (network : string) (cases : list string) : bool :=
  existsb (String.eqb network) cases.

Definition isV4Local (ip : net.IP) : bool :=
  match net.To4 ip with
  | Some ip4 =>
      (net.byte_at ip4 0 =? 10)%N
      || ((net.byte_at ip4 0 =? 172)%N
          && (N.land (net.byte_at ip4 1) 0xf0 =? 16)%N)
      || ((net.byte_at ip4 0 =? 192)%N && (net.byte_at ip4 1 =? 168)%N)
  | None => false
  end.

(** The private IPv4 ranges 10.0.0.0/8, 172.16.0.0/12 and 192.168.0.0/16,
    on the first two bytes of an address. *)
Definition is_private_v4 (a b : N) : bool :=
  ((a =? 10) || ((a =? 172) && (16 <=? b) && (b <=? 31))
   || ((a =? 192) && (b =? 168)))%N.

(** The test [len(ip) == net.IPv6len && ip[11] == 0xFF && ip[12] == 0xFE]
    of an address that contains a hardware address. *)
Definition contains_mac (ip : net.IP) : bool :=
  (length ip =? net.IPv6len)%nat
  && (net.byte_at ip 11 =? 0xFF)%N
  && (net.byte_at ip 12 =? 0xFE)%N.

(** The addresses that are announced: link-local unicast addresses and
    private IPv4 addresses, but none that contains a hardware address. *)
Definition is_announced (ip : net.IP) : bool :=
  negb (contains_mac ip) && (net.IsLinkLocalUnicast ip || isV4Local ip).

Section adapters.

(** The library and the operating system: [IP.String], [strconv.Itoa],
    the result of [osutil.GetLans()], and the resolvers of package net. *)
Variable IP_String : net.IP → string.
Variable Itoa : Z → string.
Variable GetLans : list net.IPNet * option net.error.
Variable ResolveTCPAddr : string → string → net.TCPAddr + net.error.
Variable ResolveUDPAddr : string → string → net.UDPAddr + net.error.
Variable ResolveIPAddr : string → string → net.IPAddr + net.error.

(** A nil slice and an empty slice are both the empty list: the callers
    range over the result. *)
Definition getHostPortsForAllAdapters (port : Z) : list string :=
  let '(nets, err) := GetLans in
  match err with
  | Some _ => []
  | None =>
      let portStr := Itoa port in
      foldl (λ hostPorts network,
               if contains_mac (net.IPNet_IP network) then hostPorts
               else if net.IsLinkLocalUnicast (net.IPNet_IP network)
                       || (isV4Local (net.IPNet_IP network)
                           && net.IsGlobalUnicast (net.IPNet_IP network))
               then hostPorts
                    ++ [net.JoinHostPort (IP_String (net.IPNet_IP network))
                          portStr]
               else hostPorts)
        [] nets
  end.

Definition resolve (network hostPort : string)
  : net.IP * Z * option net.error :=
  if is_case network ["tcp"; "tcp4"; "tcp6"] then
    match ResolveTCPAddr network hostPort with
    | inr err => (net.IPv4zero, 0%Z, Some err)
    | inl addr => (net.TCPAddr_IP addr, net.TCPAddr_Port addr, None)
    end
  else if is_case network ["udp"; "udp4"; "udp6"] then
    match ResolveUDPAddr network hostPort with
    | inr err => (net.IPv4zero, 0%Z, Some err)
    | inl addr => (net.UDPAddr_IP addr, net.UDPAddr_Port addr, None)
    end
  else if is_case network ["ip"; "ip4"; "ip6"] then
    match ResolveIPAddr network hostPort with
    | inr err => (net.IPv4zero, 0%Z, Some err)
    | inl addr => (net.IPAddr_IP addr, 0%Z, None)
    end
  else (net.IPv4zero, 0%Z, Some (net.UnknownNetworkError network)).

Definition getURLsForAllAdaptersIfUnspecified (network : string)
    (uri : url.URL) : list url.URL :=
  let '(ip, port, err) := resolve network (url.Host uri) in
  if bool_decide (err ≠ None) || (port =? 0)%Z then []
  else if negb (length ip =? 0)%nat && negb (net.IsUnspecified ip) then []
  else
    foldl (λ addrs hostPort, addrs ++ [url.with_Host hostPort uri])
      [] (getHostPortsForAllAdapters port).

End adapters.

End connections.

(** ** Test doubles of the adapters and of the resolvers *)

Module fake_net.

(** 192.168.1.10, with four bytes. *)
Definition lan_ip : net.IP := [xc0; xa8; x01; x0a].

(** fe80::211:22ff:fe33:4455, which contains a hardware address. *)
Definition mac_ip : net.IP :=
  [xfe; x80; x00; x00; x00; x00; x00; x00;
   x02; x11; x22; xff; xfe; x33; x44; x55].

(** fe80::1. *)
Definition link_ip : net.IP :=
  [xfe; x80; x00; x00; x00; x00; x00; x00;
   x00; x00; x00; x00; x00; x00; x00; x01].

(** 8.8.8.8, in the 16-byte form. *)
Definition public_ip : net.IP := net.IPv4 x08 x08 x08 x08.

Definition IP_String (ip : net.IP) : string :=
  if net.bytes_Equal ip lan_ip then "192.168.1.10"
  else if net.bytes_Equal ip link_ip then "fe80::1"
  else "?".

Definition Itoa (port : Z) : string :=
  if (port =? 22000)%Z then "22000" else "?".

Definition GetLans : list net.IPNet * option net.error :=
  ([net.mkIPNet public_ip [xff; x00; x00; x00];
    net.mkIPNet lan_ip [xff; xff; xff; x00];
    net.mkIPNet mac_ip [xff; xff; xff; xff; xff; xff; xff; xff];
    net.mkIPNet link_ip [xff; xff; xff; xff; xff; xff; xff; xff]],
   None).

(** Resolvers that take every address for [0.0.0.0:22000]. *)
Definition ResolveTCPAddr (network hostPort : string)
  : net.TCPAddr + net.error :=
  inl (net.mkTCPAddr net.IPv4zero 22000 "").

Definition ResolveUDPAddr (network hostPort : string)
  : net.UDPAddr + net.error :=
  inl (net.mkUDPAddr net.IPv4zero 22000 "").

Definition ResolveIPAddr (network hostPort : string)
  : net.IPAddr + net.error :=
  inl (net.mkIPAddr net.IPv4zero "").

Definition uri : url.URL := url.mkURL "tcp" "" "0.0.0.0:22000" "" "" "".

End fake_net.

(** ** Properties of the hex key encoding *)

Lemma decode_encode_byte (v : byte) :
  hex.decode_byte (hex.hexchar (N.shiftr (Byte.to_N v) 4))
                  (hex.hexchar (N.land (Byte.to_N v) 15)) = Some v.
Proof. destruct v; vm_compute; reflexivity. Qed.

Lemma DecodeString_EncodeToString (src : bytes) :
  hex.DecodeString (hex.EncodeToString src) = Some src.
Proof.
  induction src as [|v src IH]; [reflexivity|].
  cbn [hex.EncodeToString hex.encode_byte hex.DecodeString].
  rewrite decode_encode_byte, IH. reflexivity.
Qed.

Lemma EncodeToString_inj (h1 h2 : bytes) :
  hex.EncodeToString h1 = hex.EncodeToString h2 → h1 = h2.
Proof.
  intros E. apply (f_equal hex.DecodeString) in E.
  rewrite !DecodeString_EncodeToString in E. congruence.
Qed.

Lemma hashToStringMapKey_inj (h1 h2 : bytes) :
  blockstorage.hashToStringMapKey h1 = blockstorage.hashToStringMapKey h2 →
  h1 = h2.
Proof. apply EncodeToString_inj. Qed.

(** ** The in-memory backend *)

(** A call that does not write the entry of [hash] leaves it as it is. *)
Lemma blockMap_run_op_other hm o hash :
  ¬ blockstorage.writes_hash hash o →
  blockstorage.blockMap (blockstorage.run_op hm o)
    !! blockstorage.hashToStringMapKey hash
  = blockstorage.blockMap hm !! blockstorage.hashToStringMapKey hash.
Proof.
  destruct o as [h|h d|h]; cbn; intros Hne; [reflexivity| |].
  - apply lookup_insert_ne. intros E. apply Hne, hashToStringMapKey_inj, E.
  - apply lookup_delete_ne. intros E. apply Hne, hashToStringMapKey_inj, E.
Qed.

Lemma blockMap_run_ops_other os : ∀ hm hash,
  Forall (λ o, ¬ blockstorage.writes_hash hash o) os →
  blockstorage.blockMap (blockstorage.run_ops hm os)
    !! blockstorage.hashToStringMapKey hash
  = blockstorage.blockMap hm !! blockstorage.hashToStringMapKey hash.
Proof.
  induction os as [|o os IH]; intros hm hash Hall; [reflexivity|].
  inversion Hall as [|? ? Ho Hos]; subst. cbn.
  unfold blockstorage.run_ops in IH. rewrite IH by assumption.
  apply blockMap_run_op_other, Ho.
Qed.

(** C4. In-memory blob backend round trip: after [Set(hash, data)],
    [Get(hash)] returns [(data, true)] whatever calls on other hashes (and
    whatever [Get]s) come in between; after [Delete(hash)], [Get(hash)]
    reports [false], again whatever calls on other hashes come in between.
    The calls on other hashes cannot interfere because the hex key encoding
    is injective. *)
Theorem C4_cache_round_trip hm hash data os :
  Forall (λ o, ¬ blockstorage.writes_hash hash o) os →
  blockstorage.HashedBlockMapInMemory_Get
    (blockstorage.run_ops
       (blockstorage.HashedBlockMapInMemory_Set hm hash data) os) hash
  = (data, true)
  ∧ (blockstorage.HashedBlockMapInMemory_Get
       (blockstorage.run_ops
          (blockstorage.HashedBlockMapInMemory_Delete hm hash) os) hash).2
    = false.
Proof.
  intros Hall. unfold blockstorage.HashedBlockMapInMemory_Get.
  rewrite !blockMap_run_ops_other by assumption. cbn.
  rewrite lookup_insert_eq, lookup_delete_eq. split; reflexivity.
Qed.

(** ** The record of calls *)

Section virtualFolder_facts.

Context {C FileSet Snapshot Net : Type}.
Context `{!blockstorage.HashBlockStorageI C}.
Context `{!IndexI FileSet Snapshot}.
Context `{!ReplicationI Net Snapshot}.

Implicit Types f vf vFSS : virtualFolderSyncthingService C FileSet Net.

Lemma calls_since_app f f' new :
  calls f' = calls f ++ new → calls_since f f' = new.
Proof. unfold calls_since. intros ->. apply drop_app_length. Qed.

Lemma calls_since_refl f : calls_since f f = [].
Proof. apply calls_since_app. symmetry. apply app_nil_r. Qed.

Lemma calls_record c f : calls (record c f) = calls f ++ [c].
Proof. reflexivity. Qed.

Lemma calls_set_net n f : calls (set_net n f) = calls f.
Proof. reflexivity. Qed.

Lemma calls_set_blockCache c f : calls (set_blockCache c f) = calls f.
Proof. reflexivity. Qed.

Lemma calls_set_fset fs f : calls (set_fset fs f) = calls f.
Proof. reflexivity. Qed.

Lemma calls_set_queue q f : calls (set_backgroundDownloadQueue q f) = calls f.
Proof. reflexivity. Qed.

Lemma calls_set_pending n f : calls (set_backgroundDownloadPending n f) = calls f.
Proof. reflexivity. Qed.

Lemma run_sink_once data0 data : run_sink data0 [data] = data.
Proof. reflexivity. Qed.

(** What a call of [GetBlockDataFromCacheOrDownload] does, by the cases of
    the cache lookup and of the pull. *)
Lemma GetBlockData_hit snap file block vFSS data :
  blockstorage.Get (blockCache vFSS) (protocol.Hash block) = (data, true) →
  GetBlockDataFromCacheOrDownload snap file block vFSS
  = ((data, true), record (blockCache_Get (protocol.Hash block) true) vFSS).
Proof. unfold GetBlockDataFromCacheOrDownload. intros ->. reflexivity. Qed.

Lemma GetBlockData_miss_err snap file block vFSS data0 net' sunk e :
  blockstorage.Get (blockCache vFSS) (protocol.Hash block) = (data0, false) →
  pullBlockBase (net vFSS) snap file block = (net', sunk, Some e) →
  GetBlockDataFromCacheOrDownload snap file block vFSS
  = (([], false),
     record (call_pullBlockBase file block (Some e))
       (set_net net'
          (record (blockCache_Get (protocol.Hash block) false) vFSS))).
Proof.
  unfold GetBlockDataFromCacheOrDownload. intros -> Hp. cbn.
  rewrite Hp. reflexivity.
Qed.

Lemma GetBlockData_miss_ok snap file block vFSS data0 net' sunk :
  blockstorage.Get (blockCache vFSS) (protocol.Hash block) = (data0, false) →
  pullBlockBase (net vFSS) snap file block = (net', sunk, None) →
  GetBlockDataFromCacheOrDownload snap file block vFSS
  = ((run_sink data0 sunk, true),
     record (blockCache_Set (protocol.Hash block) (run_sink data0 sunk))
       (set_blockCache
          (blockstorage.Set_ (blockCache vFSS) (protocol.Hash block)
             (run_sink data0 sunk))
          (record (call_pullBlockBase file block None)
             (set_net net'
                (record (blockCache_Get (protocol.Hash block) false) vFSS))))).
Proof.
  unfold GetBlockDataFromCacheOrDownload. intros -> Hp. cbn.
  rewrite Hp. reflexivity.
Qed.

(** The three cases at once, for case analysis in the proofs below. *)
Lemma GetBlockData_cases snap file block vFSS :
  let h := protocol.Hash block in
  let r := GetBlockDataFromCacheOrDownload snap file block vFSS in
  (∃ data,
      blockstorage.Get (blockCache vFSS) h = (data, true) ∧
      r = ((data, true), record (blockCache_Get h true) vFSS))
  ∨ (∃ data0 net' sunk e,
      blockstorage.Get (blockCache vFSS) h = (data0, false) ∧
      pullBlockBase (net vFSS) snap file block = (net', sunk, Some e) ∧
      r = (([], false),
           record (call_pullBlockBase file block (Some e))
             (set_net net' (record (blockCache_Get h false) vFSS))))
  ∨ (∃ data0 net' sunk,
      blockstorage.Get (blockCache vFSS) h = (data0, false) ∧
      pullBlockBase (net vFSS) snap file block = (net', sunk, None) ∧
      r = ((run_sink data0 sunk, true),
           record (blockCache_Set h (run_sink data0 sunk))
             (set_blockCache
                (blockstorage.Set_ (blockCache vFSS) h (run_sink data0 sunk))
                (record (call_pullBlockBase file block None)
                   (set_net net' (record (blockCache_Get h false) vFSS)))))).
Proof.
  intros h r. subst h r.
  destruct (blockstorage.Get (blockCache vFSS) (protocol.Hash block))
    as [data [|]] eqn:Hget.
  - left. eexists. split; [reflexivity|]. by apply GetBlockData_hit.
  - destruct (pullBlockBase (net vFSS) snap file block)
      as [[net' sunk] [e|]] eqn:Hp.
    + right; left. do 4 eexists. split; [reflexivity|]. split; [reflexivity|].
      by eapply GetBlockData_miss_err.
    + right; right. do 3 eexists. split; [reflexivity|]. split; [reflexivity|].
      by eapply GetBlockData_miss_ok.
Qed.

End virtualFolder_facts.

(** Bring the record of calls of a state built by [record] and the setters
    into the form [calls f ++ [c1; ...; cn]]. *)
Ltac calls_norm :=
  repeat first
    [ rewrite calls_record | rewrite calls_set_net
    | rewrite calls_set_blockCache | rewrite calls_set_fset
    | rewrite calls_set_queue | rewrite calls_set_pending ];
  rewrite <- ?app_assoc; cbn [app].

(** Compute [calls_since f f'] for such a state [f'] built from [f]. *)
Ltac calls_since_norm :=
  unfold calls_since; calls_norm; rewrite ?drop_app_length.


(** ** The cache-through pull and the lookup by hash *)

Section cache_through.

Context {C FileSet Snapshot Net : Type}.
Context `{!blockstorage.HashBlockStorageI C}.
Context `{!IndexI FileSet Snapshot}.
Context `{!ReplicationI Net Snapshot}.

Implicit Types f vf vFSS : virtualFolderSyncthingService C FileSet Net.

(** C2. [GetBlockDataFromCacheOrDownload] asks the block cache first. On a
    hit it returns the cached bytes with [true] and calls [pullBlockBase]
    not at all. On a miss it calls [pullBlockBase] exactly once; if that call
    returns an error the result is [(nil, false)] and the cache is as
    before; if it succeeds, the bytes it handed to the sink are stored in
    the cache under the hash and returned with [true]. The contract of
    [pullBlockBase] is assumed: a call that succeeds has called the sink
    exactly once. *)
Theorem C2_GetBlockData_cache_through snap file block vFSS
    (Hsink : ∀ net0 net' sunk,
       pullBlockBase net0 snap file block = (net', sunk, None) →
       ∃ data, sunk = [data]) :
  let h := protocol.Hash block in
  let r := GetBlockDataFromCacheOrDownload snap file block vFSS in
  let new := calls_since vFSS r.2 in
  calls r.2 = calls vFSS ++ new ∧
  head new = Some (blockCache_Get h (blockstorage.Get (blockCache vFSS) h).2) ∧
  match blockstorage.Get (blockCache vFSS) h with
  | (data, true) =>
      r.1 = (data, true) ∧
      filter is_pullBlockBase new = [] ∧
      blockCache r.2 = blockCache vFSS
  | (_, false) =>
      let '(_, sunk, err) := pullBlockBase (net vFSS) snap file block in
      filter is_pullBlockBase new = [call_pullBlockBase file block err] ∧
      match err with
      | Some _ =>
          r.1 = ([], false) ∧
          blockCache r.2 = blockCache vFSS
      | None =>
          ∃ data, sunk = [data] ∧
            r.1 = (data, true) ∧
            blockCache r.2 = blockstorage.Set_ (blockCache vFSS) h data ∧
            last new = Some (blockCache_Set h data)
      end
  end.
Proof.
  intros h r new. subst h r new.
  destruct (GetBlockData_cases snap file block vFSS)
    as [(data & Hget & ->)|[(data0 & net' & sunk & e & Hget & Hp & ->)
                           |(data0 & net' & sunk & Hget & Hp & ->)]];
    rewrite Hget; cbn [fst snd].
  - calls_since_norm.
    repeat split; reflexivity.
  - rewrite Hp.
    calls_since_norm.
    repeat split; reflexivity.
  - rewrite Hp. destruct (Hsink _ _ _ Hp) as [data ->].
    rewrite run_sink_once.
    calls_since_norm.
    split; [reflexivity|]. split; [reflexivity|]. split; [reflexivity|].
    exists data. repeat split; reflexivity.
Qed.

(** C9. [GetHashBlockData(hash, outBuf)] only asks the block cache: it makes
    no call of [pullBlockBase] and leaves the cache as it is. When the hash
    is absent the result is [(0, ErrNoSuchFile)] and the buffer is
    untouched; when it is present the result is [(n, nil)], where [n], the
    number of bytes copied into the buffer, is the minimum of the length of
    the buffer and the length of the stored block. *)
Theorem C9_GetHashBlockData_no_fetch hash response_data vf :
  let '(data, ok) := blockstorage.Get (blockCache vf) hash in
  let '(n, err, buf, vf') := GetHashBlockData hash response_data vf in
  calls vf' = calls vf ++ [blockCache_Get hash ok] ∧
  calls_since vf vf' = [blockCache_Get hash ok] ∧
  blockCache vf' = blockCache vf ∧
  net vf' = net vf ∧
  if ok then
    err = None ∧
    n = Z.min (Z.of_nat (length response_data)) (Z.of_nat (length data)) ∧
    buf = take (Z.to_nat n) data ++ drop (Z.to_nat n) response_data
  else
    n = 0%Z ∧ err = Some protocol.ErrNoSuchFile ∧ buf = response_data.
Proof.
  unfold GetHashBlockData.
  destruct (blockstorage.Get (blockCache vf) hash) as [data [|]]; cbn.
  - calls_since_norm.
    rewrite Nat2Z.id. repeat split; try reflexivity. apply Nat2Z.inj_min.
  - calls_since_norm.
    repeat split; reflexivity.
Qed.

End cache_through.

(** ** The worker: the fetch of the blocks of a file *)

Lemma fetch_segment_no_UpdateOne fi b seg :
  fetch_segment fi b seg → filter is_UpdateOne seg = [].
Proof. intros [->|[[e ->]|[d ->]]]; reflexivity. Qed.

Lemma fetch_segment_no_Log fi b seg :
  fetch_segment fi b seg → filter is_Log seg = [].
Proof. intros [->|[[e ->]|[d ->]]]; reflexivity. Qed.

Lemma fetch_segment_no_Snapshot fi b seg :
  fetch_segment fi b seg → filter is_Snapshot_acquired seg = [].
Proof. intros [->|[[e ->]|[d ->]]]; reflexivity. Qed.

Lemma fetch_segment_no_Release fi b seg :
  fetch_segment fi b seg → filter is_Release seg = [].
Proof. intros [->|[[e ->]|[d ->]]]; reflexivity. Qed.

Lemma fetch_segment_no_Done fi b seg :
  fetch_segment fi b seg → filter is_Done seg = [].
Proof. intros [->|[[e ->]|[d ->]]]; reflexivity. Qed.

Lemma fetch_segment_lookups fi b seg :
  fetch_segment fi b seg → cache_lookups seg = [protocol.Hash b].
Proof. intros [->|[[e ->]|[d ->]]]; reflexivity. Qed.

(** A property of calls that no call of a fetch has holds for no call of
    the fetches of a list of blocks. *)
Lemma fetch_segments_filter (P : call → bool) fi blocks segs :
  (∀ b seg, fetch_segment fi b seg → filter P seg = []) →
  Forall2 (fetch_segment fi) blocks segs →
  filter P (concat segs) = [].
Proof.
  intros HP. induction 1 as [|b seg blocks segs Hseg _ IH]; [reflexivity|].
  cbn [concat]. rewrite filter_app, IH, (HP _ _ Hseg). reflexivity.
Qed.

Lemma fetch_segments_lookups fi blocks segs :
  Forall2 (fetch_segment fi) blocks segs →
  cache_lookups (concat segs) = protocol.Hash <$> blocks.
Proof.
  induction 1 as [|b seg blocks segs Hseg _ IH]; [reflexivity|].
  cbn [concat]. unfold cache_lookups in *.
  rewrite omap_app, IH. fold (cache_lookups seg).
  rewrite (fetch_segment_lookups _ _ _ Hseg). reflexivity.
Qed.

Section worker.

Context {C FileSet Snapshot Net : Type}.
Context `{!blockstorage.HashBlockStorageI C}.
Context `{!IndexI FileSet Snapshot}.
Context `{!ReplicationI Net Snapshot}.

Implicit Types f vf vFSS : virtualFolderSyncthingService C FileSet Net.

Lemma same_folder_refl f : same_folder f f.
Proof. repeat split. Qed.

Lemma same_folder_trans f1 f2 f3 :
  same_folder f1 f2 → same_folder f2 f3 → same_folder f1 f3.
Proof. unfold same_folder. intuition congruence. Qed.

(** One fetch: its calls form a segment, and it reports [false] exactly
    when the segment holds a failed pull. *)
Lemma GetBlockData_segment snap fi b f :
  let r := GetBlockDataFromCacheOrDownload snap fi b f in
  ∃ seg, fetch_segment fi b seg ∧
    calls r.2 = calls f ++ seg ∧
    r.1.2 = negb (existsb is_failed_pull seg) ∧
    same_folder f r.2.
Proof.
  intros r. subst r.
  destruct (GetBlockData_cases snap fi b f)
    as [(data & _ & ->)|[(data0 & net' & sunk & e & _ & _ & ->)
                        |(data0 & net' & sunk & _ & _ & ->)]];
    cbn [fst snd]; eexists;
    (split; [|split; [calls_norm; reflexivity|split;
                       [reflexivity|repeat split]]]).
  - left. reflexivity.
  - right; left. eexists. reflexivity.
  - right; right. eexists. reflexivity.
Qed.

(** A fetch reports [false] exactly when it has made a pull that failed. *)
Lemma GetBlockData_false_iff_failed_pull snap fi b f :
  let r := GetBlockDataFromCacheOrDownload snap fi b f in
  r.1.2 = false ↔ existsb is_failed_pull (calls_since f r.2) = true.
Proof.
  intros r. subst r.
  destruct (GetBlockData_segment snap fi b f) as (seg & _ & Hcalls & -> & _).
  rewrite (calls_since_app _ _ _ Hcalls).
  destruct (existsb is_failed_pull seg); cbn; split; congruence.
Qed.

(** The loop over the blocks: one segment per block, whatever the earlier
    fetches returned, and [all_ok] ends [false] exactly when some pull
    failed. *)
Lemma fetch_blocks_segments snap fi blocks : ∀ all_ok f,
  let r := fetch_blocks snap fi blocks all_ok f in
  ∃ segs, Forall2 (fetch_segment fi) blocks segs ∧
    calls r.2 = calls f ++ concat segs ∧
    r.1 = all_ok && negb (existsb is_failed_pull (concat segs)) ∧
    same_folder f r.2.
Proof.
  induction blocks as [|b blocks IH]; intros all_ok f; cbn [fetch_blocks].
  - exists []. split; [constructor|]. cbn.
    rewrite app_nil_r, andb_true_r. repeat split.
  - destruct (GetBlockData_segment snap fi b f)
      as (seg & Hseg & Hcalls & Hok & Hsame).
    destruct (GetBlockDataFromCacheOrDownload snap fi b f) as [[data ok] f1].
    cbn [fst snd] in *.
    destruct (IH (all_ok && ok) f1) as (segs & Hsegs & Hcalls' & Hok' & Hsame').
    exists (seg :: segs). split; [by constructor|].
    split; [|split].
    + rewrite Hcalls', Hcalls. cbn [concat]. by rewrite app_assoc.
    + rewrite Hok', Hok. cbn [concat]. rewrite existsb_app, negb_orb.
      by rewrite andb_assoc.
    + eapply same_folder_trans; eassumption.
Qed.

(** The body of the job function takes one of the four exit paths. *)
Lemma process_job_body_path job f :
  let f' := process_job_body job f in
  ∃ new, job_path job f new (fset f') ∧
    calls f' = calls f ++ new ∧
    ID f' = ID f ∧
    backgroundDownloadPending f' = backgroundDownloadPending f ∧
    backgroundDownloadQueue f' = backgroundDownloadQueue f.
Proof.
  intros f'. subst f'. unfold process_job_body.
  destruct (fset_Snapshot (fset f)) as [snap|err] eqn:Hsnap.
  2:{ eexists. split; [cbn [fset record]; by eapply path_snapshot_error|].
      repeat split. }
  destruct (snap_GetGlobal snap job) as [fi|] eqn:Hglobal.
  2:{ eexists. split; [cbn [fset record]; by eapply path_absent|].
      split; [calls_norm; reflexivity|]. repeat split. }
  set (f0 := record (call_snap_GetGlobal job true)
               (record (call_fset_Snapshot true) f)).
  destruct (fetch_blocks_segments snap fi (protocol.Blocks fi) true f0)
    as (segs & Hsegs & Hcalls & Hok & Hsame).
  destruct (fetch_blocks snap fi (protocol.Blocks fi) true f0) as [all_ok f1].
  cbn [fst snd] in *. rewrite andb_true_l in Hok.
  destruct Hsame as (HID & _ & Hfset & _ & Hpending & Hqueue).
  change (ID f0) with (ID f) in HID.
  change (fset f0) with (fset f) in Hfset.
  change (backgroundDownloadPending f0)
    with (backgroundDownloadPending f) in Hpending.
  change (backgroundDownloadQueue f0)
    with (backgroundDownloadQueue f) in Hqueue.
  destruct (existsb is_failed_pull (concat segs)) eqn:Hfailed;
    cbn [negb] in Hok; subst all_ok; cbn [negb].
  - eexists. split.
    + rewrite Hfset. eapply path_block_failure; eassumption.
    + split; [|by rewrite HID, Hpending, Hqueue].
      rewrite Hcalls. subst f0. calls_norm. reflexivity.
  - eexists. split.
    + cbn [fset record set_fset]. rewrite Hfset.
      eapply path_published; try eassumption; reflexivity.
    + split; [|by cbn; rewrite HID, Hpending, Hqueue].
      calls_norm. rewrite Hcalls. subst f0. calls_norm.
      cbn [fset ID record set_fset]. rewrite Hfset, HID. reflexivity.
Qed.

(** The deferred [Done] follows the calls of the body, whatever the path. *)
Lemma process_job_path job f :
  let f' := process_job job f in
  ∃ new, job_path job f new (fset f') ∧
    calls f' = calls f ++ new ++ [queue_Done job] ∧
    calls_since f f' = new ++ [queue_Done job] ∧
    ID f' = ID f ∧
    backgroundDownloadPending f' = backgroundDownloadPending f ∧
    backgroundDownloadQueue f'
    = jobQueue.Done (backgroundDownloadQueue f) job.
Proof.
  intros f'. subst f'. unfold process_job.
  destruct (process_job_body_path job f)
    as (new & Hpath & Hcalls & HID & Hpending & Hqueue).
  exists new. split; [exact Hpath|].
  assert (Hc : calls
                 (record (queue_Done job)
                    (set_backgroundDownloadQueue
                       (jobQueue.Done
                          (backgroundDownloadQueue (process_job_body job f))
                          job) (process_job_body job f)))
               = calls f ++ new ++ [queue_Done job]).
  { calls_norm. rewrite Hcalls, <- app_assoc. reflexivity. }
  split; [exact Hc|]. split; [by apply calls_since_app|].
  cbn. by rewrite HID, Hpending, Hqueue.
Qed.

End worker.

(** ** The worker: publication of a file *)

Section publication.

Context {C FileSet Snapshot Net : Type}.
Context `{!blockstorage.HashBlockStorageI C}.
Context `{!IndexI FileSet Snapshot}.
Context `{!ReplicationI Net Snapshot}.

Implicit Types f vf vFSS : virtualFolderSyncthingService C FileSet Net.

(** C1. All-or-nothing publication: when a block fetch of the job fails,
    that is, when one of its pulls returns an error (a fetch reports
    [false] exactly then, [GetBlockData_false_iff_failed_pull]), the worker
    makes no call of [UpdateOne], logs no event and leaves the index as it
    was. So [UpdateOne] and the event occur only when every fetch
    succeeded. *)
Theorem C1_all_or_nothing_publication job f :
  let f' := process_job job f in
  let new := calls_since f f' in
  existsb is_failed_pull new = true →
  filter is_UpdateOne new = [] ∧ filter is_Log new = [] ∧ fset f' = fset f.
Proof.
  intros f' new. subst f' new.
  destruct (process_job_path job f) as (body & Hpath & _ & -> & _).
  rewrite existsb_app, !filter_app. cbn [existsb is_failed_pull orb].
  rewrite orb_false_r. intros Hfail.
  inversion Hpath as [err Hsnap Hb Hfs|snap Hsnap Hglobal Hb Hfs
                     |snap fi segs Hsnap Hglobal Hsegs Hfailed Hb Hfs
                     |snap fi segs fs' seq Hsnap Hglobal Hsegs Hfailed ? ? Hb Hfs];
    subst body.
  - discriminate Hfail.
  - discriminate Hfail.
  - rewrite !filter_app.
    rewrite (fetch_segments_filter is_UpdateOne fi _ _
               (fetch_segment_no_UpdateOne fi) Hsegs).
    rewrite (fetch_segments_filter is_Log fi _ _
               (fetch_segment_no_Log fi) Hsegs).
    repeat split; try reflexivity. symmetry. exact Hfs.
  - rewrite !existsb_app, Hfailed in Hfail. discriminate Hfail.
Qed.

(** C6. Whenever the worker publishes a file, that is, whenever a call of
    [UpdateOne] or an event is among the calls of a job, the calls end with
    [UpdateOne] for the global file of the job, the read of the sequence of
    the local device, the one event [LocalIndexUpdated] and the deferred
    [Done], in this order, and nothing before them is a call of [UpdateOne]
    or an event. The payload of the event is the folder ID, [items] 1, the
    name of the file as the only file name, and the sequence read after
    [UpdateOne] both as [sequence] and as [version]. *)
Theorem C6_event_after_UpdateOne job f :
  let f' := process_job job f in
  let new := calls_since f f' in
  existsb is_UpdateOne new || existsb is_Log new = true →
  ∃ snap fi pre s,
    fset_Snapshot (fset f) = inl snap ∧
    snap_GetGlobal snap job = Some fi ∧
    new = pre ++
          [call_fset_UpdateOne protocol.LocalDeviceID fi;
           call_fset_Sequence protocol.LocalDeviceID s;
           evLogger_Log events.LocalIndexUpdated
             {[ "folder" := events.VString (ID f);
                "items" := events.VInt 1;
                "filenames" := events.VStrings [protocol.Name fi];
                "sequence" := events.VInt64 s;
                "version" := events.VInt64 s ]};
           queue_Done job] ∧
    filter is_UpdateOne pre = [] ∧
    filter is_Log pre = [] ∧
    fset f' = fset_UpdateOne (fset f) protocol.LocalDeviceID fi ∧
    s = fset_Sequence (fset f') protocol.LocalDeviceID.
Proof.
  intros f' new. subst f' new.
  destruct (process_job_path job f) as (body & Hpath & _ & -> & _).
  rewrite !existsb_app. cbn [existsb is_UpdateOne is_Log orb].
  rewrite !orb_false_r. intros Hpub.
  inversion Hpath as [err Hsnap Hb Hfs|snap Hsnap Hglobal Hb Hfs
                     |snap fi segs Hsnap Hglobal Hsegs Hfailed Hb Hfs
                     |snap fi segs fs' seq Hsnap Hglobal Hsegs Hfailed Hfs' Hseq Hb Hfs];
    subst body.
  - discriminate Hpub.
  - discriminate Hpub.
  - exfalso. cbn [app existsb is_UpdateOne is_Log orb] in Hpub.
    apply orb_prop in Hpub as [Hex|Hex];
      apply existsb_exists in Hex as (c & Hin & Hc);
      apply list_elem_of_In in Hin.
    + assert (Hin' : c ∈ filter is_UpdateOne (concat segs))
        by (apply list_elem_of_filter; split; [by rewrite Hc|done]).
      rewrite (fetch_segments_filter is_UpdateOne fi _ _
                 (fetch_segment_no_UpdateOne fi) Hsegs) in Hin'.
      by apply not_elem_of_nil in Hin'.
    + assert (Hin' : c ∈ filter is_Log (concat segs))
        by (apply list_elem_of_filter; split; [by rewrite Hc|done]).
      rewrite (fetch_segments_filter is_Log fi _ _
                 (fetch_segment_no_Log fi) Hsegs) in Hin'.
      by apply not_elem_of_nil in Hin'.
  - exists snap, fi,
      ([call_fset_Snapshot true; call_snap_GetGlobal job true] ++ concat segs),
      seq.
    split; [exact Hsnap|]. split; [exact Hglobal|].
    split; [by rewrite <- !app_assoc|].
    rewrite !filter_app.
    rewrite (fetch_segments_filter is_UpdateOne fi _ _
               (fetch_segment_no_UpdateOne fi) Hsegs).
    rewrite (fetch_segments_filter is_Log fi _ _
               (fetch_segment_no_Log fi) Hsegs).
    repeat split; try reflexivity; assumption.
Qed.

(** C10. A failed block fetch does not end the loop over the blocks of the
    file: whatever the fetches return, the calls of a job whose name is in
    the global index hold one fetch per block of the file, in the order of
    the blocks (the cache is asked for every hash), and every pull that
    succeeds is followed by the store of its bytes in the cache; when some
    pull failed, only the deferred [Done] follows the fetches. *)
Theorem C10_no_abort_at_first_failure job f snap fi :
  fset_Snapshot (fset f) = inl snap →
  snap_GetGlobal snap job = Some fi →
  let new := calls_since f (process_job job f) in
  cache_lookups new = protocol.Hash <$> protocol.Blocks fi ∧
  ∃ segs,
    Forall2 (fetch_segment fi) (protocol.Blocks fi) segs ∧
    if existsb is_failed_pull new then
      new = [call_fset_Snapshot true; call_snap_GetGlobal job true]
            ++ concat segs ++ [queue_Done job]
    else
      ∃ published,
        new = [call_fset_Snapshot true; call_snap_GetGlobal job true]
              ++ concat segs ++ published ++ [queue_Done job].
Proof.
  intros Hsnap Hglobal new. subst new.
  destruct (process_job_path job f) as (body & Hpath & _ & -> & _).
  inversion Hpath as [err Hsnap' Hb Hfs|snap' Hsnap' Hglobal' Hb Hfs
                     |snap' fi' segs Hsnap' Hglobal' Hsegs Hfailed Hb Hfs
                     |snap' fi' segs fs' seq Hsnap' Hglobal' Hsegs Hfailed ? ? Hb Hfs];
    subst body; try congruence;
    assert (snap' = snap) by congruence; subst snap';
    assert (fi' = fi) by congruence; subst fi'.
  - split.
    + unfold cache_lookups. rewrite !omap_app.
      fold (cache_lookups (concat segs)).
      rewrite (fetch_segments_lookups _ _ _ Hsegs). cbn. by rewrite !app_nil_r.
    + exists segs. split; [exact Hsegs|].
      rewrite !existsb_app, Hfailed. cbn. reflexivity.
  - split.
    + unfold cache_lookups. rewrite !omap_app.
      fold (cache_lookups (concat segs)).
      rewrite (fetch_segments_lookups _ _ _ Hsegs). cbn. by rewrite !app_nil_r.
    + exists segs. split; [exact Hsegs|].
      rewrite !existsb_app, Hfailed. cbn.
      eexists [_; _; _]. rewrite <- app_assoc. reflexivity.
Qed.

End publication.

(** ** The job queue *)

Lemma insert_sorted_Permutation order e l :
  jobQueue.insert_sorted order e l ≡ₚ e :: l.
Proof.
  induction l as [|x l IH]; cbn; [reflexivity|].
  destruct (jobQueue.entry_leb order x e); [|reflexivity].
  rewrite IH. apply Permutation_swap.
Qed.

Lemma sort_Permutation order l : ∀ acc,
  foldl (λ acc e, jobQueue.insert_sorted order e acc) acc l ≡ₚ acc ++ l.
Proof.
  induction l as [|e l IH]; intros acc; cbn.
  - by rewrite app_nil_r.
  - rewrite IH, insert_sorted_Permutation. cbn. apply Permutation_middle.
Qed.

Lemma SortAccordingToConfig_queued q order :
  jobQueue.queued (jobQueue.SortAccordingToConfig q order)
  ≡ₚ jobQueue.queued q.
Proof. unfold jobQueue.SortAccordingToConfig. cbn. apply sort_Permutation. Qed.

Lemma SortAccordingToConfig_is_pending q order file :
  jobQueue.is_pending (jobQueue.SortAccordingToConfig q order) file
  = jobQueue.is_pending q file.
Proof.
  unfold jobQueue.is_pending. apply bool_decide_ext.
  by rewrite SortAccordingToConfig_queued.
Qed.

Lemma SortAccordingToConfig_wf q order :
  jobQueue.wf q → jobQueue.wf (jobQueue.SortAccordingToConfig q order).
Proof.
  intros [Hnd Hdisj]. split.
  - by rewrite SortAccordingToConfig_queued.
  - intros file. rewrite SortAccordingToConfig_queued. apply Hdisj.
Qed.

Lemma PushIfNew_known q file sz mod_ :
  let q' := (jobQueue.PushIfNew q file sz mod_).1 in
  jobQueue.is_pending q' file || jobQueue.is_in_progress q' file = true.
Proof.
  unfold jobQueue.PushIfNew.
  destruct (jobQueue.is_pending q file || jobQueue.is_in_progress q file)
    eqn:Hknown; cbn; [exact Hknown|].
  apply orb_true_intro. left. unfold jobQueue.is_pending. cbn.
  apply bool_decide_eq_true. rewrite fmap_app, elem_of_app. right.
  by apply list_elem_of_singleton.
Qed.

Lemma PushIfNew_duplicate q file sz mod_ :
  jobQueue.is_pending q file || jobQueue.is_in_progress q file = true →
  jobQueue.PushIfNew q file sz mod_ = (q, false).
Proof. unfold jobQueue.PushIfNew. by intros ->. Qed.

Lemma PushIfNew_wf q file sz mod_ :
  jobQueue.wf q → jobQueue.wf (jobQueue.PushIfNew q file sz mod_).1.
Proof.
  unfold jobQueue.PushIfNew.
  destruct (jobQueue.is_pending q file || jobQueue.is_in_progress q file)
    eqn:Hknown; cbn; [done|].
  apply orb_false_elim in Hknown as [Hp Hi].
  apply bool_decide_eq_false in Hp. apply bool_decide_eq_false in Hi.
  intros [Hnd Hdisj]. split; cbn.
  - rewrite fmap_app. apply NoDup_app. split; [exact Hnd|].
    split; [|apply NoDup_singleton].
    intros x Hx Hx'. apply list_elem_of_singleton in Hx'. by subst x.
  - intros x. rewrite fmap_app, elem_of_app. intros [Hx|Hx].
    + by apply Hdisj.
    + apply list_elem_of_singleton in Hx. by subst x.
Qed.

(** After [Pop] and [Done] of the popped job, the job is absent, and the
    queue is well formed again. *)
Lemma Pop_Done_absent q job q' :
  jobQueue.wf q →
  jobQueue.Pop q = (job, true, q') →
  jobQueue.is_pending (jobQueue.Done q' job) job = false ∧
  jobQueue.is_in_progress (jobQueue.Done q' job) job = false ∧
  jobQueue.wf (jobQueue.Done q' job).
Proof.
  unfold jobQueue.Pop. intros [Hnd Hdisj].
  destruct (jobQueue.queued q) as [|e rest] eqn:Hq; [discriminate|].
  intros [= <- <-]. cbn in Hnd. apply NoDup_cons in Hnd as [Hnotin Hnd].
  unfold jobQueue.is_pending, jobQueue.is_in_progress, jobQueue.wf. cbn.
  split; [by apply bool_decide_eq_false|].
  split.
  { apply bool_decide_eq_false. rewrite elem_of_difference.
    intros [_ Hne]. apply Hne. by apply elem_of_singleton. }
  split; [exact Hnd|].
  intros file Hfile. rewrite elem_of_difference, elem_of_union.
  intros [[He|Hp] Hne]; [by apply Hne|].
  apply (Hdisj file); [|exact Hp]. cbn. by apply list_elem_of_further.
Qed.

(** ** Requests for a background download, and the rounds of a worker *)

Section requests.

Context {C FileSet Snapshot Net : Type}.
Context `{!blockstorage.HashBlockStorageI C}.
Context `{!IndexI FileSet Snapshot}.
Context `{!ReplicationI Net Snapshot}.

Implicit Types f vf vFSS : virtualFolderSyncthingService C FileSet Net.

Lemma Request_duplicate filename size modified f :
  jobQueue.is_pending (backgroundDownloadQueue f) filename
  || jobQueue.is_in_progress (backgroundDownloadQueue f) filename = true →
  RequestBackgroundDownload filename size modified f
  = record (queue_PushIfNew filename size modified false) f.
Proof.
  intros Hknown. unfold RequestBackgroundDownload.
  rewrite (PushIfNew_duplicate _ _ _ _ Hknown). cbn. by destruct f.
Qed.

Lemma Request_new filename size modified f q :
  jobQueue.PushIfNew (backgroundDownloadQueue f) filename size modified
  = (q, true) →
  RequestBackgroundDownload filename size modified f
  = send_pending
      (record (queue_SortAccordingToConfig (Order f))
         (set_backgroundDownloadQueue
            (jobQueue.SortAccordingToConfig q (Order f))
            (record (queue_PushIfNew filename size modified true)
               (set_backgroundDownloadQueue q f)))).
Proof. unfold RequestBackgroundDownload. by intros ->. Qed.

(** After a request the name is known to the queue. *)
Lemma Request_known filename size modified f :
  let q := backgroundDownloadQueue
             (RequestBackgroundDownload filename size modified f) in
  jobQueue.is_pending q filename || jobQueue.is_in_progress q filename = true.
Proof.
  cbn zeta. pose proof (PushIfNew_known (backgroundDownloadQueue f)
                          filename size modified) as Hknown.
  cbn zeta in Hknown. unfold RequestBackgroundDownload.
  destruct (jobQueue.PushIfNew (backgroundDownloadQueue f) filename size
              modified) as [q [|]]; cbn [fst negb] in *.
  - unfold send_pending.
    destruct (_ <? _)%nat; cbn;
      by rewrite SortAccordingToConfig_is_pending.
  - exact Hknown.
Qed.

Lemma send_pending_cap f :
  (backgroundDownloadPending f ≤ backgroundDownloadPending_cap)%nat →
  backgroundDownloadPending (send_pending f) = backgroundDownloadPending_cap ∧
  calls (send_pending f)
  = calls f ++ [pending_send (bool_decide (backgroundDownloadPending f = 0))].
Proof.
  unfold send_pending, backgroundDownloadPending_cap. intros Hcap.
  destruct (backgroundDownloadPending f) as [|[|n]] eqn:Hp; cbn; [done|done|lia].
Qed.

Lemma Request_pending_cap filename size modified f :
  (backgroundDownloadPending f ≤ backgroundDownloadPending_cap)%nat →
  (backgroundDownloadPending (RequestBackgroundDownload filename size modified f)
   ≤ backgroundDownloadPending_cap)%nat.
Proof.
  intros Hcap. unfold RequestBackgroundDownload.
  destruct (jobQueue.PushIfNew _ _ _ _) as [q [|]]; cbn [negb]; [|exact Hcap].
  match goal with |- (backgroundDownloadPending (send_pending ?g) ≤ _)%nat =>
    destruct (send_pending_cap g Hcap) as [-> _] end.
  done.
Qed.

(** C7. [RequestBackgroundDownload] and duplicates. When [PushIfNew]
    reports that no entry was added, the call has no further effect: no
    sort, no send, and the service is as before but for the record of the
    call of [PushIfNew]. When an entry was added, the queue is sorted by the
    order of the folder and one send without blocking is tried on the
    channel of capacity 1, which then holds one token. A repeated request
    for the same name has no effect, and however many requests are made, the
    channel holds at most one token. *)
Theorem C7_RequestBackgroundDownload_duplicates filename size modified f :
  (backgroundDownloadPending f ≤ backgroundDownloadPending_cap)%nat →
  let f' := RequestBackgroundDownload filename size modified f in
  match jobQueue.PushIfNew (backgroundDownloadQueue f) filename size modified
  with
  | (_, false) => f' = record (queue_PushIfNew filename size modified false) f
  | (q, true) =>
      calls_since f f'
      = [queue_PushIfNew filename size modified true;
         queue_SortAccordingToConfig (Order f);
         pending_send (bool_decide (backgroundDownloadPending f = 0))] ∧
      backgroundDownloadQueue f' = jobQueue.SortAccordingToConfig q (Order f) ∧
      backgroundDownloadPending f' = 1
  end ∧
  (∀ size' modified',
     RequestBackgroundDownload filename size' modified' f'
     = record (queue_PushIfNew filename size' modified' false) f') ∧
  (∀ reqs : list (string * Z * Z),
     (backgroundDownloadPending
        (foldl (λ f r, RequestBackgroundDownload r.1.1 r.1.2 r.2 f) f reqs)
      ≤ backgroundDownloadPending_cap)%nat).
Proof.
  intros Hcap f'. subst f'. split; [|split].
  - destruct (jobQueue.PushIfNew (backgroundDownloadQueue f) filename size
                modified) as [q [|]] eqn:Hpush.
    + rewrite (Request_new _ _ _ _ _ Hpush).
      match goal with |- context [send_pending ?g] =>
        destruct (send_pending_cap g Hcap) as [Hp Hc] end.
      split; [|split].
      * apply calls_since_app. rewrite Hc. calls_norm. reflexivity.
      * unfold send_pending. by destruct (_ <? _)%nat.
      * exact Hp.
    + apply Request_duplicate.
      unfold jobQueue.PushIfNew in Hpush.
      destruct (jobQueue.is_pending _ _ || jobQueue.is_in_progress _ _);
        [reflexivity|discriminate].
  - intros size' modified'. apply Request_duplicate, Request_known.
  - intros reqs. revert f Hcap.
    induction reqs as [|r reqs IH]; intros f Hcap; [exact Hcap|].
    cbn [foldl]. apply IH. by apply Request_pending_cap.
Qed.

(** The calls of a request hold no call on the index. *)
Lemma Request_calls filename size modified f :
  let f' := RequestBackgroundDownload filename size modified f in
  ∃ new, calls f' = calls f ++ new ∧
    filter is_Snapshot_acquired new = [] ∧ filter is_Release new = [].
Proof.
  cbn zeta. unfold RequestBackgroundDownload.
  destruct (jobQueue.PushIfNew _ _ _ _) as [q [|]]; cbn [negb].
  - unfold send_pending.
    destruct (_ <? _)%nat; eexists; (split; [calls_norm; reflexivity|done]).
  - eexists. split; [calls_norm; reflexivity|done].
Qed.

Lemma Scan_visit_calls snap vf x :
  ∃ new, calls (Scan_visit snap vf x) = calls vf ++ new ∧
    filter is_Snapshot_acquired new = [] ∧ filter is_Release new = [].
Proof.
  unfold Scan_visit. destruct (protocol.IsDirectory x).
  - destruct (snap_GetGlobal snap (protocol.FileName x));
      eexists; (split; [calls_norm; reflexivity|done]).
  - apply Request_calls.
Qed.

Lemma Scan_visits_calls snap entries : ∀ vf,
  ∃ new, calls (foldl (Scan_visit snap) vf entries) = calls vf ++ new ∧
    filter is_Snapshot_acquired new = [] ∧ filter is_Release new = [].
Proof.
  induction entries as [|x entries IH]; intros vf; cbn [foldl].
  - exists []. by rewrite app_nil_r.
  - destruct (Scan_visit_calls snap vf x) as (new1 & Hc1 & Hs1 & Hr1).
    destruct (IH (Scan_visit snap vf x)) as (new2 & Hc2 & Hs2 & Hr2).
    exists (new1 ++ new2). rewrite Hc2, Hc1, <- app_assoc, !filter_app.
    by rewrite Hs1, Hs2, Hr1, Hr2.
Qed.

End requests.

Section rounds.

Context {C FileSet Snapshot Net : Type}.
Context `{!blockstorage.HashBlockStorageI C}.
Context `{!IndexI FileSet Snapshot}.
Context `{!ReplicationI Net Snapshot}.

Implicit Types f g vf vFSS : virtualFolderSyncthingService C FileSet Net.

(** The exit path of a job depends on the service through the index and
    the folder ID only. *)
Lemma job_path_same job f g new fs :
  fset g = fset f → ID g = ID f →
  job_path job g new fs → job_path job f new fs.
Proof.
  intros Hfset HID Hpath. destruct Hpath; rewrite ?Hfset, ?HID in *.
  - by eapply path_snapshot_error.
  - by eapply path_absent.
  - by eapply path_block_failure.
  - subst. by eapply path_published.
Qed.

Lemma process_job_absent job f snap :
  fset_Snapshot (fset f) = inl snap →
  snap_GetGlobal snap job = None →
  process_job_body job f
  = record (call_snap_GetGlobal job false) (record (call_fset_Snapshot true) f).
Proof. unfold process_job_body. by intros -> ->. Qed.

(** C8. Every job a worker pops is marked done, whichever way its
    processing ends. In a round of the worker on a well-formed queue that is
    not empty, the calls are the [Pop] of the job, the calls of one of the
    four exit paths (no snapshot, name absent from the global index, a
    failed block fetch, publication) and then [Done] of the job, once and
    last; afterwards the job is neither pending nor in progress. When the
    name is absent from the global index, nothing else happens: no write to
    the cache, no [UpdateOne], no event, and cache and index are as
    before. *)
Theorem C8_job_always_marked_done f job q :
  jobQueue.wf (backgroundDownloadQueue f) →
  jobQueue.Pop (backgroundDownloadQueue f) = (job, true, q) →
  let r := drain_round f in
  let new := calls_since f r.2 in
  r.1 = true ∧
  (∃ body, job_path job f body (fset r.2) ∧
           new = queue_Pop job true :: body ++ [queue_Done job]) ∧
  filter is_Done new = [queue_Done job] ∧
  last new = Some (queue_Done job) ∧
  jobQueue.is_pending (backgroundDownloadQueue r.2) job = false ∧
  jobQueue.is_in_progress (backgroundDownloadQueue r.2) job = false ∧
  jobQueue.wf (backgroundDownloadQueue r.2) ∧
  match fset_Snapshot (fset f) with
  | inr _ => True
  | inl snap =>
      match snap_GetGlobal snap job with
      | Some _ => True
      | None =>
          new = [queue_Pop job true; call_fset_Snapshot true;
                 call_snap_GetGlobal job false; queue_Done job] ∧
          blockCache r.2 = blockCache f ∧
          fset r.2 = fset f
      end
  end.
Proof.
  intros Hwf Hpop r new. subst r new. unfold drain_round. rewrite Hpop.
  cbn [fst snd].
  set (f0 := record (queue_Pop job true) (set_backgroundDownloadQueue q f)).
  destruct (process_job_path job f0)
    as (body & Hpath & Hcalls & _ & _ & _ & Hqueue).
  assert (Hnew : calls_since f (process_job job f0)
                 = queue_Pop job true :: body ++ [queue_Done job]).
  { apply calls_since_app. rewrite Hcalls. subst f0. calls_norm. reflexivity. }
  apply (job_path_same job f) in Hpath; [|reflexivity..].
  destruct (Pop_Done_absent _ _ _ Hwf Hpop) as (Hpending & Hprogress & Hwf').
  change (backgroundDownloadQueue f0) with q in Hqueue.
  rewrite Hnew, Hqueue.
  assert (Hbody : filter is_Done body = []).
  { destruct Hpath as [| |snap fi segs _ _ Hsegs _
                         |snap fi segs fs' seq _ _ Hsegs _ _ _];
      [reflexivity|reflexivity| |];
      rewrite !filter_app,
        (fetch_segments_filter is_Done fi _ segs
           (fetch_segment_no_Done fi) Hsegs);
      reflexivity. }
  split; [reflexivity|]. split; [by exists body|].
  split; [by rewrite filter_cons, filter_app, Hbody|].
  split; [by rewrite app_comm_cons, last_snoc|].
  split; [exact Hpending|]. split; [exact Hprogress|]. split; [exact Hwf'|].
  destruct (fset_Snapshot (fset f)) as [snap|err] eqn:Hsnap; [|exact I].
  destruct (snap_GetGlobal snap job) eqn:Hglobal; [exact I|].
  rewrite <- Hnew. unfold process_job.
  rewrite (process_job_absent job f0 snap Hsnap Hglobal).
  split; [|by split]. subst f0. by calls_since_norm.
Qed.

(** C3, as the code has it. The specification asks that a snapshot is
    released on every exit path of the operation that took it. Neither the
    processing of a job nor [Scan] does so: when [fset.Snapshot()] succeeds,
    no call of [Release] follows, and the snapshot is still held when the
    operation returns. *)
Theorem C3_snapshot_not_released f snap :
  fset_Snapshot (fset f) = inl snap →
  (∀ job,
     let new := calls_since f (process_job job f) in
     filter is_Release new = [] ∧ snapshots_held new = 1%Z) ∧
  (∀ subs,
     let new := calls_since f (Scan subs f).2 in
     (Scan subs f).1 = None ∧
     filter is_Release new = [] ∧ snapshots_held new = 1%Z).
Proof.
  intros Hsnap. split.
  - intros job new. subst new.
    destruct (process_job_path job f) as (body & Hpath & _ & -> & _).
    unfold snapshots_held. rewrite !filter_app.
    destruct Hpath as [err Hsnap'| |snap' fi segs _ _ Hsegs _
                      |snap' fi segs fs' seq _ _ Hsegs _ _ _];
      try congruence; try (by split);
      rewrite ?filter_app;
      rewrite (fetch_segments_filter is_Release fi _ segs
                 (fetch_segment_no_Release fi) Hsegs);
      rewrite (fetch_segments_filter is_Snapshot_acquired fi _ segs
                 (fetch_segment_no_Snapshot fi) Hsegs);
      by split.
  - intros subs new. subst new. unfold Scan. rewrite Hsnap. cbn [fst snd].
    destruct (Scan_visits_calls snap
                (snap_WithNeedTruncated snap protocol.LocalDeviceID)
                (record (call_fset_Snapshot true) f))
      as (new & Hcalls & Hs & Hr).
    rewrite calls_record, <- app_assoc in Hcalls.
    rewrite (calls_since_app _ _ _ Hcalls).
    unfold snapshots_held. cbn [app]. rewrite !filter_cons. cbn.
    rewrite Hs, Hr. by split.
Qed.

End rounds.

(** ** Byte strings *)

Lemma append_nil_l b : "" +:+ b = b.
Proof. reflexivity. Qed.

Lemma append_cons c a b : String c a +:+ b = String c (a +:+ b).
Proof. reflexivity. Qed.

Lemma append_assoc a b c : (a +:+ b) +:+ c = a +:+ b +:+ c.
Proof.
  induction a as [|x a IH]; [reflexivity|].
  rewrite !append_cons. by rewrite IH.
Qed.

Lemma string_take_app a b :
  gostrings.string_take (String.length a) (a +:+ b) = a.
Proof.
  induction a as [|c a IH]; [by destruct b|].
  rewrite append_cons. cbn. by rewrite IH.
Qed.

Lemma string_drop_app a b n :
  gostrings.string_drop (String.length a + n) (a +:+ b)
  = gostrings.string_drop n b.
Proof.
  induction a as [|c a IH]; [reflexivity|].
  rewrite append_cons. cbn. exact IH.
Qed.

Lemma string_drop_length s : gostrings.string_drop (String.length s) s = "".
Proof. induction s as [|c s IH]; cbn; [reflexivity|exact IH]. Qed.

Lemma string_length_app a b :
  String.length (a +:+ b) = String.length a + String.length b.
Proof.
  induction a as [|c a IH]; [reflexivity|].
  rewrite append_cons. cbn. by rewrite IH.
Qed.

Lemma string_length_drop n : ∀ s,
  String.length (gostrings.string_drop n s) = String.length s - n.
Proof. induction n as [|n IH]; intros [|c s]; cbn; auto. Qed.

Lemma HasPrefix_app p s : gostrings.HasPrefix (p +:+ s) p = true.
Proof.
  induction p as [|c p IH]; [reflexivity|].
  rewrite append_cons. cbn. by rewrite Ascii.eqb_refl.
Qed.

Lemma HasPrefix_length s p :
  gostrings.HasPrefix s p = true → (String.length p ≤ String.length s)%nat.
Proof.
  revert s. induction p as [|c p IH]; intros [|d s]; cbn; try lia;
    try discriminate.
  destruct (Ascii.eqb c d); [|discriminate].
  intros Hp. apply IH in Hp. lia.
Qed.

Lemma CutPrefix_app p s : gostrings.CutPrefix (p +:+ s) p = (s, true).
Proof.
  unfold gostrings.CutPrefix. rewrite HasPrefix_app.
  rewrite <- (Nat.add_0_r (String.length p)), string_drop_app. reflexivity.
Qed.

Lemma CutPrefix_none s p :
  gostrings.HasPrefix s p = false → gostrings.CutPrefix s p = (s, false).
Proof. unfold gostrings.CutPrefix. by intros ->. Qed.

(** An instance found by [Index] lies within the string. *)
Lemma Index_bound sep : ∀ s m,
  gostrings.Index s sep = Some m →
  (m + String.length sep ≤ String.length s)%nat.
Proof.
  induction s as [|c s IH]; intros m; cbn [gostrings.Index].
  - destruct (gostrings.HasPrefix "" sep) eqn:Hp; [|discriminate].
    intros [= <-]. apply HasPrefix_length in Hp. cbn in *. lia.
  - destruct (gostrings.HasPrefix (String c s) sep) eqn:Hp.
    + intros [= <-]. apply HasPrefix_length in Hp. cbn in *. lia.
    + destruct (gostrings.Index s sep) as [m'|] eqn:Hi; [|discriminate].
      intros [= <-]. specialize (IH _ eq_refl). cbn. lia.
Qed.

Lemma genSplit_no_instance rounds s sep :
  gostrings.Index s sep = None → gostrings.genSplit rounds s sep = [s].
Proof. destruct rounds; cbn; [reflexivity|]. by intros ->. Qed.

(** The bound on the rounds of [genSplit] is never the reason the loop
    ends: with a non-empty separator, any two bounds of at least the length
    of the string give the same parts. *)
Lemma genSplit_rounds sep :
  (0 < String.length sep)%nat →
  ∀ rounds1 rounds2 s,
    (String.length s ≤ rounds1)%nat → (String.length s ≤ rounds2)%nat →
    gostrings.genSplit rounds1 s sep = gostrings.genSplit rounds2 s sep.
Proof.
  intros Hsep. induction rounds1 as [|rounds1 IH]; intros rounds2 s Hl1 Hl2.
  - destruct rounds2 as [|rounds2]; [reflexivity|]. cbn [gostrings.genSplit].
    destruct (gostrings.Index s sep) as [m|] eqn:Hi; [|reflexivity].
    apply Index_bound in Hi. lia.
  - cbn [gostrings.genSplit].
    destruct (gostrings.Index s sep) as [m|] eqn:Hi.
    2:{ by rewrite genSplit_no_instance. }
    pose proof (Index_bound _ _ _ Hi) as Hb.
    destruct rounds2 as [|rounds2]; [lia|].
    cbn [gostrings.genSplit]. rewrite Hi. f_equal.
    pose proof (string_length_drop (m + String.length sep) s) as Hd.
    apply IH; lia.
Qed.

(** A string that holds the separator once, after [a], splits into [a] and
    the rest. *)
Lemma Split_once a b sep :
  (0 < String.length sep)%nat →
  gostrings.Index (a +:+ sep +:+ b) sep = Some (String.length a) →
  gostrings.Index b sep = None →
  gostrings.Split (a +:+ sep +:+ b) sep = [a; b].
Proof.
  intros Hsep Hfirst Hrest. unfold gostrings.Split.
  destruct sep as [|c sep]; [cbn in Hsep; lia|].
  destruct (String.length (a +:+ String c sep +:+ b)) as [|n] eqn:Hn.
  { rewrite !string_length_app in Hn. cbn in Hn. lia. }
  cbn [gostrings.genSplit]. rewrite Hfirst.
  rewrite string_take_app, string_drop_app.
  rewrite <- (Nat.add_0_r (String.length (String c sep))), string_drop_app.
  cbn [gostrings.string_drop]. by rewrite genSplit_no_instance.
Qed.

Lemma Split_no_instance s sep :
  (0 < String.length sep)%nat →
  gostrings.Index s sep = None → gostrings.Split s sep = [s].
Proof.
  intros Hsep Hi. unfold gostrings.Split.
  destruct sep; [cbn in Hsep; lia|]. by apply genSplit_no_instance.
Qed.

(** The loop of [genSplit] gives at least one part. *)
Lemma genSplit_cons rounds s sep :
  ∃ x l, gostrings.genSplit rounds s sep = x :: l.
Proof.
  destruct rounds; cbn; [by eauto|].
  destruct (gostrings.Index s sep); by eauto.
Qed.

(** A string that holds an instance of the separator behind the first one
    splits into more than two parts. *)
Lemma Split_twice sep d i j :
  (0 < String.length sep)%nat →
  gostrings.Index d sep = Some i →
  gostrings.Index (gostrings.string_drop (i + String.length sep) d) sep
  = Some j →
  ∃ x y z l, gostrings.Split d sep = x :: y :: z :: l.
Proof.
  intros Hsep Hi Hj. unfold gostrings.Split.
  pose proof (Index_bound _ _ _ Hi) as Hbi.
  pose proof (Index_bound _ _ _ Hj) as Hbj.
  rewrite string_length_drop in Hbj.
  destruct sep as [|c sep]; [cbn in Hsep; lia|].
  destruct (String.length d) as [|[|n]]; [lia|lia|].
  cbn [gostrings.genSplit]. rewrite Hi, Hj.
  destruct (genSplit_cons n
              (gostrings.string_drop (j + String.length (String c sep))
                 (gostrings.string_drop (i + String.length (String c sep)) d))
              (String c sep)) as (z & l & ->).
  by eauto.
Qed.

(** ** [Serve]: the blob URL and the mount path of a folder path *)

Section Serve_facts.

Context {C : Type}.
Variable NewGoCloudUrlStorage : string → C.
Variable MkdirAll : string → option protocol.error.

(** C5, as the code has it, in five cases that cover every folder path.
    (1) For a path [:virtual:<blobURL>:mount_at:<mountPoint>] in which the
    first [:mount_at:] is the one after [<blobURL>] and [<mountPoint>]
    holds no [:mount_at:], [Serve] takes [<blobURL>] as the blob URL and
    [<mountPoint>] as the mount path. (2) For a path [:virtual:<d>] in
    which [<d>] holds no [:mount_at:], [Serve] returns the configuration
    error. (3) For a path [:virtual:<d>] in which [<d>] holds a
    [:mount_at:] behind the first one, [<d>] splits into more than two
    parts and [Serve] returns the same error. (4) For a path without the
    prefix [:virtual:], when the directory [<path>_BlobStorage] is created,
    the blob URL is [file://<path>_BlobStorage?no_tmp_dir=yes] and the
    mount path is [<path>R]. (5) For such a path, when the directory
    cannot be created, [Serve] ends in [log.Fatal] with the error of
    [os.MkdirAll]. In the cases (1) and (4) the block cache is the storage
    opened for the blob URL; in the others no storage is opened. What
    [os.MkdirAll] does plays no part in the cases (1) to (3). *)
Theorem C5_Serve_backend_resolution :
  (∀ blobURL mountPoint,
     gostrings.Index (blobURL +:+ ":mount_at:" +:+ mountPoint) ":mount_at:"
     = Some (String.length blobURL) →
     gostrings.Index mountPoint ":mount_at:" = None →
     Serve_resolve MkdirAll
       (":virtual:" +:+ blobURL +:+ ":mount_at:" +:+ mountPoint)
     = Serve_goes_on (blobURL, mountPoint)
     ∧ ∀ mp0, Serve_blockCache NewGoCloudUrlStorage MkdirAll
         (":virtual:" +:+ blobURL +:+ ":mount_at:" +:+ mountPoint) None mp0
       = Serve_goes_on (NewGoCloudUrlStorage blobURL, mountPoint))
  ∧ (∀ d,
       gostrings.Index d ":mount_at:" = None →
       Serve_resolve MkdirAll (":virtual:" +:+ d)
       = Serve_return err_missing_mount_at
       ∧ ∀ mp0, Serve_blockCache NewGoCloudUrlStorage MkdirAll
           (":virtual:" +:+ d) None mp0
         = Serve_return err_missing_mount_at)
  ∧ (∀ d i j,
       gostrings.Index d ":mount_at:" = Some i →
       gostrings.Index
         (gostrings.string_drop (i + String.length ":mount_at:") d)
         ":mount_at:" = Some j →
       (2 < length (gostrings.Split d ":mount_at:"))%nat
       ∧ Serve_resolve MkdirAll (":virtual:" +:+ d)
         = Serve_return err_missing_mount_at
       ∧ ∀ mp0, Serve_blockCache NewGoCloudUrlStorage MkdirAll
           (":virtual:" +:+ d) None mp0
         = Serve_return err_missing_mount_at)
  ∧ (∀ Path,
       gostrings.HasPrefix Path ":virtual:" = false →
       MkdirAll (Path +:+ "_BlobStorage") = None →
       Serve_resolve MkdirAll Path
       = Serve_goes_on
           ("file://" +:+ Path +:+ "_BlobStorage?no_tmp_dir=yes",
            Path +:+ "R")
       ∧ ∀ mp0, Serve_blockCache NewGoCloudUrlStorage MkdirAll Path None mp0
         = Serve_goes_on
             (NewGoCloudUrlStorage
                ("file://" +:+ Path +:+ "_BlobStorage?no_tmp_dir=yes"),
              Path +:+ "R"))
  ∧ (∀ Path err,
       gostrings.HasPrefix Path ":virtual:" = false →
       MkdirAll (Path +:+ "_BlobStorage") = Some err →
       Serve_resolve MkdirAll Path = Serve_Fatal err
       ∧ ∀ mp0, Serve_blockCache NewGoCloudUrlStorage MkdirAll Path None mp0
         = Serve_Fatal err).
Proof.
  split; [|split; [|split; [|split]]].
  - intros blobURL mountPoint Hfirst Hrest.
    assert (H1 : Serve_resolve MkdirAll
                   (":virtual:" +:+ blobURL +:+ ":mount_at:" +:+ mountPoint)
                 = Serve_goes_on (blobURL, mountPoint)).
    { unfold Serve_resolve. rewrite CutPrefix_app.
      rewrite Split_once; [reflexivity|cbn; lia|exact Hfirst|exact Hrest]. }
    unfold Serve_blockCache. rewrite H1. by split.
  - intros d Hd.
    assert (H2 : Serve_resolve MkdirAll (":virtual:" +:+ d)
                 = Serve_return err_missing_mount_at).
    { unfold Serve_resolve. rewrite CutPrefix_app.
      rewrite Split_no_instance; [reflexivity|cbn; lia|exact Hd]. }
    unfold Serve_blockCache. rewrite H2. by split.
  - intros d i j Hi Hj.
    destruct (Split_twice ":mount_at:" d i j) as (x & y & z & l & Hsplit);
      [cbn; lia|exact Hi|exact Hj|].
    assert (H3 : Serve_resolve MkdirAll (":virtual:" +:+ d)
                 = Serve_return err_missing_mount_at).
    { unfold Serve_resolve. rewrite CutPrefix_app, Hsplit. reflexivity. }
    unfold Serve_blockCache. rewrite H3, Hsplit.
    split; [cbn; lia|by split].
  - intros Path Hprefix Hmkdir.
    assert (H4 : Serve_resolve MkdirAll Path
                 = Serve_goes_on
                     ("file://" +:+ Path +:+ "_BlobStorage?no_tmp_dir=yes",
                      Path +:+ "R")).
    { unfold Serve_resolve. rewrite (CutPrefix_none _ _ Hprefix), Hmkdir.
      by rewrite append_assoc. }
    unfold Serve_blockCache. rewrite H4. by split.
  - intros Path err Hprefix Hmkdir.
    assert (H5 : Serve_resolve MkdirAll Path = Serve_Fatal err).
    { unfold Serve_resolve. by rewrite (CutPrefix_none _ _ Hprefix), Hmkdir. }
    unfold Serve_blockCache. rewrite H5. by split.
Qed.

End Serve_facts.

(** ** Runs on the test doubles *)

Lemma C1_all_or_nothing_publication_witness :
  existsb is_failed_pull
    (calls_since (fake.service0 fake.peer_half)
       (process_job "file.bin" (fake.service0 fake.peer_half))) = true
  ∧ (filter is_UpdateOne
       (calls_since (fake.service0 fake.peer_half)
          (process_job "file.bin" (fake.service0 fake.peer_half))) = []
     ∧ filter is_Log
         (calls_since (fake.service0 fake.peer_half)
            (process_job "file.bin" (fake.service0 fake.peer_half))) = []
     ∧ fset (process_job "file.bin" (fake.service0 fake.peer_half))
       = fset (fake.service0 fake.peer_half)).
Proof.
  split; [vm_compute; reflexivity|].
  apply (C1_all_or_nothing_publication "file.bin"
           (fake.service0 fake.peer_half)).
  vm_compute; reflexivity.
Defined.

Lemma peer_calls_sink_once snap file block :
  ∀ (net0 net' : gmap string bytes) (sunk : list bytes),
    pullBlockBase net0 snap file block = (net', sunk, None) →
    ∃ data, sunk = [data].
Proof.
  intros net0 net' sunk. cbn.
  destruct (net0 !! _) as [data|]; intros [= <- <-]. by exists data.
Defined.

Lemma C2_GetBlockData_cache_through_witness :
  (∀ (net0 net' : gmap string bytes) (sunk : list bytes),
     pullBlockBase net0 fake.index0 fake.file_bin fake.B1 = (net', sunk, None) →
     ∃ data, sunk = [data])
  ∧ (let h := protocol.Hash fake.B1 in
     let r := GetBlockDataFromCacheOrDownload fake.index0 fake.file_bin
                fake.B1 (fake.service0 fake.peer_full) in
     let new := calls_since (fake.service0 fake.peer_full) r.2 in
     calls r.2 = calls (fake.service0 fake.peer_full) ++ new ∧
     head new
     = Some (blockCache_Get h
               (blockstorage.Get
                  (blockCache (fake.service0 fake.peer_full)) h).2) ∧
     match blockstorage.Get (blockCache (fake.service0 fake.peer_full)) h with
     | (data, true) =>
         r.1 = (data, true) ∧
         filter is_pullBlockBase new = [] ∧
         blockCache r.2 = blockCache (fake.service0 fake.peer_full)
     | (_, false) =>
         let '(_, sunk, err) :=
           pullBlockBase (net (fake.service0 fake.peer_full)) fake.index0
             fake.file_bin fake.B1 in
         filter is_pullBlockBase new
         = [call_pullBlockBase fake.file_bin fake.B1 err] ∧
         match err with
         | Some _ =>
             r.1 = ([], false) ∧
             blockCache r.2 = blockCache (fake.service0 fake.peer_full)
         | None =>
             ∃ data, sunk = [data] ∧
               r.1 = (data, true) ∧
               blockCache r.2
               = blockstorage.Set_
                   (blockCache (fake.service0 fake.peer_full)) h data ∧
               last new = Some (blockCache_Set h data)
         end
     end).
Proof.
  split; [apply peer_calls_sink_once|].
  apply (C2_GetBlockData_cache_through fake.index0 fake.file_bin fake.B1
           (fake.service0 fake.peer_full)).
  apply peer_calls_sink_once.
Defined.

Lemma C3_snapshot_not_released_witness :
  fset_Snapshot (fset (fake.service0 fake.peer_full)) = inl fake.index0
  ∧ snapshots_held
      (calls_since (fake.service0 fake.peer_full)
         (Scan [] (fake.service0 fake.peer_full)).2) = 1%Z
  ∧ snapshots_held
      (calls_since (fake.service0 fake.peer_full)
         (process_job "file.bin" (fake.service0 fake.peer_full))) = 1%Z.
Proof.
  assert (Hsnap : fset_Snapshot (fset (fake.service0 fake.peer_full))
                  = inl fake.index0) by reflexivity.
  split; [exact Hsnap|].
  destruct (C3_snapshot_not_released (fake.service0 fake.peer_full)
              fake.index0 Hsnap) as [Hjob HScan].
  split; [apply (HScan [])|apply (Hjob "file.bin")].
Defined.

Lemma C4_cache_round_trip_witness :
  Forall (λ o, ¬ blockstorage.writes_hash fake.H1 o)
    [blockstorage.OpSet fake.H2 fake.D2; blockstorage.OpGet fake.H1;
     blockstorage.OpDelete fake.H2]
  ∧ (blockstorage.HashedBlockMapInMemory_Get
       (blockstorage.run_ops
          (blockstorage.HashedBlockMapInMemory_Set
             blockstorage.NewHashedBlockMapInMemory fake.H1 fake.D1)
          [blockstorage.OpSet fake.H2 fake.D2; blockstorage.OpGet fake.H1;
           blockstorage.OpDelete fake.H2]) fake.H1
     = (fake.D1, true)
     ∧ (blockstorage.HashedBlockMapInMemory_Get
          (blockstorage.run_ops
             (blockstorage.HashedBlockMapInMemory_Delete
                blockstorage.NewHashedBlockMapInMemory fake.H1)
             [blockstorage.OpSet fake.H2 fake.D2; blockstorage.OpGet fake.H1;
              blockstorage.OpDelete fake.H2]) fake.H1).2
       = false).
Proof.
  assert (Hos : Forall (λ o, ¬ blockstorage.writes_hash fake.H1 o)
                  [blockstorage.OpSet fake.H2 fake.D2;
                   blockstorage.OpGet fake.H1;
                   blockstorage.OpDelete fake.H2]).
  { repeat constructor; cbn; try discriminate. tauto. }
  split; [exact Hos|].
  exact (C4_cache_round_trip blockstorage.NewHashedBlockMapInMemory
           fake.H1 fake.D1 _ Hos).
Defined.

(** C5, as the specification states it, fails: the folder path
    [:virtual:mem://x:mount_at:/tmp/m:mount_at:y] has the form
    [:virtual:<blobURL>:mount_at:<mountPoint>], for the blob URL [mem://x]
    and the mount point [/tmp/m:mount_at:y], and [Serve] returns the
    configuration error; and for a path without the prefix, a failure of
    [os.MkdirAll] ends in [log.Fatal] with no blob URL and no mount
    path. *)
Lemma C5_Serve_backend_resolution_counterexample :
  Serve_resolve (λ _, None)
    (":virtual:" +:+ "mem://x" +:+ ":mount_at:" +:+ "/tmp/m:mount_at:y")
  = Serve_return err_missing_mount_at
  ∧ Serve_resolve (λ _, None)
      (":virtual:" +:+ "mem://x" +:+ ":mount_at:" +:+ "/tmp/m:mount_at:y")
    ≠ Serve_goes_on ("mem://x", "/tmp/m:mount_at:y")
  ∧ Serve_resolve (λ _, Some (protocol.errors_New "permission denied"))
      "/data/f"
    = Serve_Fatal (protocol.errors_New "permission denied")
  ∧ Serve_resolve (λ _, Some (protocol.errors_New "permission denied"))
      "/data/f"
    ≠ Serve_goes_on ("file://" +:+ "/data/f" +:+ "_BlobStorage?no_tmp_dir=yes",
                     "/data/f" +:+ "R").
Proof. vm_compute. repeat split; discriminate. Qed.

Lemma C5_Serve_backend_resolution_witness :
  (gostrings.Index ("mem://x" +:+ ":mount_at:" +:+ "/tmp/m") ":mount_at:"
   = Some (String.length "mem://x")
   ∧ gostrings.Index "/tmp/m" ":mount_at:" = None
   ∧ Serve_resolve (λ _, None)
       (":virtual:" +:+ "mem://x" +:+ ":mount_at:" +:+ "/tmp/m")
     = Serve_goes_on ("mem://x", "/tmp/m"))
  ∧ (gostrings.Index "mem://x" ":mount_at:" = None
     ∧ Serve_resolve (λ _, None) (":virtual:" +:+ "mem://x")
       = Serve_return err_missing_mount_at)
  ∧ (gostrings.Index "mem://x:mount_at:/tmp/m:mount_at:y" ":mount_at:"
     = Some 7
     ∧ gostrings.Index
         (gostrings.string_drop (7 + String.length ":mount_at:")
            "mem://x:mount_at:/tmp/m:mount_at:y") ":mount_at:"
       = Some 6
     ∧ (2 < length (gostrings.Split "mem://x:mount_at:/tmp/m:mount_at:y"
                      ":mount_at:"))%nat
     ∧ Serve_resolve (λ _, None)
         (":virtual:" +:+ "mem://x:mount_at:/tmp/m:mount_at:y")
       = Serve_return err_missing_mount_at)
  ∧ (gostrings.HasPrefix "/data/f" ":virtual:" = false
     ∧ (λ _ : string, @None protocol.error) ("/data/f" +:+ "_BlobStorage")
       = None
     ∧ Serve_resolve (λ _, None) "/data/f"
       = Serve_goes_on
           ("file://" +:+ "/data/f" +:+ "_BlobStorage?no_tmp_dir=yes",
            "/data/f" +:+ "R"))
  ∧ ((λ _ : string, Some (protocol.errors_New "permission denied"))
       ("/data/f" +:+ "_BlobStorage")
     = Some (protocol.errors_New "permission denied")
     ∧ Serve_resolve (λ _, Some (protocol.errors_New "permission denied"))
         "/data/f"
       = Serve_Fatal (protocol.errors_New "permission denied")
     ∧ ∀ mp0,
         Serve_blockCache (λ s : string, s)
           (λ _, Some (protocol.errors_New "permission denied"))
           "/data/f" None mp0
         = Serve_Fatal (protocol.errors_New "permission denied")).
Proof.
  assert (H1 : gostrings.Index ("mem://x" +:+ ":mount_at:" +:+ "/tmp/m")
                 ":mount_at:" = Some (String.length "mem://x"))
    by (vm_compute; reflexivity).
  assert (H2 : gostrings.Index "/tmp/m" ":mount_at:" = None)
    by (vm_compute; reflexivity).
  assert (H3 : gostrings.Index "mem://x" ":mount_at:" = None)
    by (vm_compute; reflexivity).
  assert (H4 : gostrings.Index "mem://x:mount_at:/tmp/m:mount_at:y"
                 ":mount_at:" = Some 7)
    by (vm_compute; reflexivity).
  assert (H5 : gostrings.Index
                 (gostrings.string_drop (7 + String.length ":mount_at:")
                    "mem://x:mount_at:/tmp/m:mount_at:y") ":mount_at:"
               = Some 6)
    by (vm_compute; reflexivity).
  assert (H6 : gostrings.HasPrefix "/data/f" ":virtual:" = false)
    by (vm_compute; reflexivity).
  destruct (C5_Serve_backend_resolution (λ s : string, s) (λ _, None))
    as (Hgood & Hnone & Htwice & Hdefault & _).
  destruct (C5_Serve_backend_resolution (λ s : string, s)
              (λ _, Some (protocol.errors_New "permission denied")))
    as (_ & _ & _ & _ & HFatal).
  destruct (Hgood "mem://x" "/tmp/m" H1 H2) as [Ha _].
  destruct (Hnone "mem://x" H3) as [Hb _].
  destruct (Htwice "mem://x:mount_at:/tmp/m:mount_at:y" 7 6 H4 H5)
    as (Hparts & Hc & _).
  destruct (Hdefault "/data/f" H6 eq_refl) as [Hd _].
  destruct (HFatal "/data/f" (protocol.errors_New "permission denied")
              H6 eq_refl) as [He Hf].
  repeat split; assumption.
Defined.

Lemma C6_event_after_UpdateOne_witness :
  existsb is_UpdateOne
    (calls_since (fake.service0 fake.peer_full)
       (process_job "file.bin" (fake.service0 fake.peer_full)))
  || existsb is_Log
       (calls_since (fake.service0 fake.peer_full)
          (process_job "file.bin" (fake.service0 fake.peer_full))) = true
  ∧ ∃ snap fi pre s,
      fset_Snapshot (fset (fake.service0 fake.peer_full)) = inl snap ∧
      snap_GetGlobal snap "file.bin" = Some fi ∧
      calls_since (fake.service0 fake.peer_full)
        (process_job "file.bin" (fake.service0 fake.peer_full))
      = pre ++
        [call_fset_UpdateOne protocol.LocalDeviceID fi;
         call_fset_Sequence protocol.LocalDeviceID s;
         evLogger_Log events.LocalIndexUpdated
           {[ "folder" := events.VString (ID (fake.service0 fake.peer_full));
              "items" := events.VInt 1;
              "filenames" := events.VStrings [protocol.Name fi];
              "sequence" := events.VInt64 s;
              "version" := events.VInt64 s ]};
         queue_Done "file.bin"] ∧
      filter is_UpdateOne pre = [] ∧
      filter is_Log pre = [] ∧
      fset (process_job "file.bin" (fake.service0 fake.peer_full))
      = fset_UpdateOne (fset (fake.service0 fake.peer_full))
          protocol.LocalDeviceID fi ∧
      s = fset_Sequence
            (fset (process_job "file.bin" (fake.service0 fake.peer_full)))
            protocol.LocalDeviceID.
Proof.
  split; [vm_compute; reflexivity|].
  apply (C6_event_after_UpdateOne "file.bin" (fake.service0 fake.peer_full)).
  vm_compute; reflexivity.
Defined.

Lemma C7_RequestBackgroundDownload_duplicates_witness :
  (backgroundDownloadPending (fake.service0 fake.peer_full)
   ≤ backgroundDownloadPending_cap)%nat
  ∧ (∀ size' modified',
       RequestBackgroundDownload "file.bin" size' modified'
         (RequestBackgroundDownload "file.bin" 4 1700000000
            (fake.service0 fake.peer_full))
       = record (queue_PushIfNew "file.bin" size' modified' false)
           (RequestBackgroundDownload "file.bin" 4 1700000000
              (fake.service0 fake.peer_full)))
  ∧ (∀ reqs : list (string * Z * Z),
       (backgroundDownloadPending
          (foldl (λ f r, RequestBackgroundDownload r.1.1 r.1.2 r.2 f)
             (fake.service0 fake.peer_full) reqs)
        ≤ backgroundDownloadPending_cap)%nat).
Proof.
  assert (Hcap : (backgroundDownloadPending (fake.service0 fake.peer_full)
                  ≤ backgroundDownloadPending_cap)%nat)
    by (vm_compute; lia).
  split; [exact Hcap|].
  exact (proj2 (C7_RequestBackgroundDownload_duplicates "file.bin" 4
                  1700000000 (fake.service0 fake.peer_full) Hcap)).
Defined.

Lemma service_queued_wf peer :
  jobQueue.wf (backgroundDownloadQueue (fake.service_queued peer)).
Proof.
  split; cbn.
  - apply NoDup_singleton.
  - intros file _. apply not_elem_of_empty.
Defined.

Lemma C8_job_always_marked_done_witness :
  jobQueue.wf (backgroundDownloadQueue (fake.service_queued fake.peer_half))
  ∧ jobQueue.Pop (backgroundDownloadQueue (fake.service_queued fake.peer_half))
    = ("file.bin", true, jobQueue.mkQueue [] ({[ "file.bin" ]} ∪ ∅))
  ∧ (drain_round (fake.service_queued fake.peer_half)).1 = true
  ∧ last (calls_since (fake.service_queued fake.peer_half)
            (drain_round (fake.service_queued fake.peer_half)).2)
    = Some (queue_Done "file.bin")
  ∧ jobQueue.is_pending
      (backgroundDownloadQueue
         (drain_round (fake.service_queued fake.peer_half)).2) "file.bin"
    = false
  ∧ jobQueue.is_in_progress
      (backgroundDownloadQueue
         (drain_round (fake.service_queued fake.peer_half)).2) "file.bin"
    = false.
Proof.
  assert (Hpop : jobQueue.Pop
                   (backgroundDownloadQueue
                      (fake.service_queued fake.peer_half))
                 = ("file.bin", true,
                    jobQueue.mkQueue [] ({[ "file.bin" ]} ∪ ∅)))
    by reflexivity.
  split; [apply service_queued_wf|]. split; [exact Hpop|].
  destruct (C8_job_always_marked_done (fake.service_queued fake.peer_half)
              "file.bin" _ (service_queued_wf _) Hpop)
    as (Hok & _ & _ & Hlast & Hpending & Hprogress & _).
  repeat split; assumption.
Defined.

(** [file.bin] on a peer that lacks its first block: the first fetch
    fails, and the second block is still fetched and cached before the job
    is dropped without a publication. *)
Lemma C10_no_abort_at_first_failure_witness :
  fset_Snapshot (fset (fake.service0 fake.peer_late)) = inl fake.index0
  ∧ snap_GetGlobal fake.index0 "file.bin" = Some fake.file_bin
  ∧ calls_since (fake.service0 fake.peer_late)
      (process_job "file.bin" (fake.service0 fake.peer_late))
    = [call_fset_Snapshot true; call_snap_GetGlobal "file.bin" true;
       blockCache_Get fake.H1 false;
       call_pullBlockBase fake.file_bin fake.B1
         (Some (protocol.errors_New "no such block"));
       blockCache_Get fake.H2 false;
       call_pullBlockBase fake.file_bin fake.B2 None;
       blockCache_Set fake.H2 fake.D2;
       queue_Done "file.bin"]
  ∧ blockstorage.Get
      (blockCache (process_job "file.bin" (fake.service0 fake.peer_late)))
      fake.H2
    = (fake.D2, true)
  ∧ cache_lookups
      (calls_since (fake.service0 fake.peer_late)
         (process_job "file.bin" (fake.service0 fake.peer_late)))
    = protocol.Hash <$> protocol.Blocks fake.file_bin
  ∧ ∃ segs,
      Forall2 (fetch_segment fake.file_bin) (protocol.Blocks fake.file_bin)
        segs ∧
      if existsb is_failed_pull
           (calls_since (fake.service0 fake.peer_late)
              (process_job "file.bin" (fake.service0 fake.peer_late)))
      then
        calls_since (fake.service0 fake.peer_late)
          (process_job "file.bin" (fake.service0 fake.peer_late))
        = [call_fset_Snapshot true; call_snap_GetGlobal "file.bin" true]
          ++ concat segs ++ [queue_Done "file.bin"]
      else
        ∃ published,
          calls_since (fake.service0 fake.peer_late)
            (process_job "file.bin" (fake.service0 fake.peer_late))
          = [call_fset_Snapshot true; call_snap_GetGlobal "file.bin" true]
            ++ concat segs ++ published ++ [queue_Done "file.bin"].
Proof.
  assert (Hsnap : fset_Snapshot (fset (fake.service0 fake.peer_late))
                  = inl fake.index0) by reflexivity.
  assert (Hglobal : snap_GetGlobal fake.index0 "file.bin" = Some fake.file_bin)
    by (vm_compute; reflexivity).
  split; [exact Hsnap|]. split; [exact Hglobal|].
  split; [vm_compute; reflexivity|]. split; [vm_compute; reflexivity|].
  exact (C10_no_abort_at_first_failure "file.bin"
           (fake.service0 fake.peer_late) fake.index0 fake.file_bin
           Hsnap Hglobal).
Defined.

(** ** Scenarios of the specification, on the test doubles *)

(** S2: a scan enqueues [file.bin]; the worker fetches both blocks from the
    peer, adopts the file into the local index and logs one event. *)
Example S2_prefetch_publishes_index :
  let f := (drain_round (Scan [] (fake.service0 fake.peer_full)).2).2 in
  fake.local (fset f) = [fake.dir_d; fake.file_bin] ∧
  filter is_Log (calls f)
  = [evLogger_Log events.LocalIndexUpdated
       {[ "folder" := events.VString "default";
          "items" := events.VInt 1;
          "filenames" := events.VStrings ["file.bin"];
          "sequence" := events.VInt64 9;
          "version" := events.VInt64 9 ]}] ∧
  (blockstorage.Get (blockCache f) fake.H1,
   blockstorage.Get (blockCache f) fake.H2)
  = ((fake.D1, true), (fake.D2, true)).
Proof. vm_compute. repeat split; reflexivity. Qed.

(** S3: the peer lacks the second block; the first is cached, nothing is
    published for [file.bin], and the job is neither pending nor in
    progress afterwards. *)
Example S3_failure_suppression :
  let f := (drain_round (Scan [] (fake.service0 fake.peer_half)).2).2 in
  fake.local (fset f) = [fake.dir_d] ∧
  filter is_Log (calls f) = [] ∧
  (blockstorage.Get (blockCache f) fake.H1).2 = true ∧
  (blockstorage.Get (blockCache f) fake.H2).2 = false ∧
  jobQueue.is_pending (backgroundDownloadQueue f) "file.bin" = false ∧
  jobQueue.is_in_progress (backgroundDownloadQueue f) "file.bin" = false.
Proof. vm_compute. repeat split; reflexivity. Qed.

(** S5: on an empty cache the lookup by hash reports that there is no such
    file, and asks nobody but the cache. *)
Example S5_hash_lookup_without_fetch :
  let r := GetHashBlockData fake.H1 [x00; x00]
             (fake.service0 fake.peer_full) in
  r.1 = ((0%Z, Some protocol.ErrNoSuchFile), [x00; x00]) ∧
  calls r.2 = [blockCache_Get fake.H1 false].
Proof. vm_compute. split; reflexivity. Qed.

(** S6: the folder path of a virtual descriptor. *)
Example S6_config_parse :
  Serve_resolve (λ _, None) ":virtual:mem://x:mount_at:/tmp/m"
  = Serve_goes_on ("mem://x", "/tmp/m") ∧
  Serve_resolve (λ _, None) ":virtual:mem://x"
  = Serve_return err_missing_mount_at.
Proof. vm_compute. split; reflexivity. Qed.

(** ** More on the hex keys and the in-memory backend *)

Lemma hexchar_is_lower_hex (v : byte) :
  is_lower_hex (hex.hexchar (N.shiftr (Byte.to_N v) 4)) = true ∧
  is_lower_hex (hex.hexchar (N.land (Byte.to_N v) 15)) = true.
Proof. destruct v; vm_compute; split; reflexivity. Qed.

(** X1. The map key of a hash decodes back to the hash, so two hashes
    with the same key are equal. *)
Theorem X1_hashToStringMapKey_round_trip (h1 h2 : bytes) :
  hex.DecodeString (blockstorage.hashToStringMapKey h1) = Some h1 ∧
  (blockstorage.hashToStringMapKey h1 = blockstorage.hashToStringMapKey h2 ↔
   h1 = h2).
Proof.
  split; [apply DecodeString_EncodeToString|].
  split; [apply EncodeToString_inj|by intros ->].
Qed.

(** X2. The map key of a hash has two characters per byte of the hash, and
    every character is a lower-case hex digit. *)
Theorem X2_hashToStringMapKey_shape (hash : bytes) :
  String.length (blockstorage.hashToStringMapKey hash) = 2 * length hash ∧
  forallb is_lower_hex
    (list_ascii_of_string (blockstorage.hashToStringMapKey hash)) = true.
Proof.
  unfold blockstorage.hashToStringMapKey.
  induction hash as [|v hash [IHlen IHhex]]; [by split|].
  cbn [hex.EncodeToString hex.encode_byte String.length
         list_ascii_of_string forallb length].
  destruct (hexchar_is_lower_hex v) as [-> ->]. rewrite IHlen, IHhex.
  split; [lia|reflexivity].
Qed.

Lemma Get_result_lookup hm hash :
  blockstorage.HashedBlockMapInMemory_Get hm hash
  = Get_result
      (blockstorage.blockMap hm !! blockstorage.hashToStringMapKey hash).
Proof.
  unfold blockstorage.HashedBlockMapInMemory_Get.
  by destruct (_ !! _).
Qed.

Lemma entry_of_Get_result entry : entry_of (Get_result entry) = entry.
Proof. by destruct entry. Qed.

Lemma lookup_run_op hm o hash :
  blockstorage.blockMap (blockstorage.run_op hm o)
    !! blockstorage.hashToStringMapKey hash
  = entry_after hash
      (blockstorage.blockMap hm !! blockstorage.hashToStringMapKey hash) o.
Proof.
  destruct o as [h|h d|h]; cbn; [reflexivity| |].
  - destruct (decide (h = hash)) as [->|Hne].
    + apply lookup_insert_eq.
    + apply lookup_insert_ne. intros E. by apply Hne, hashToStringMapKey_inj.
  - destruct (decide (h = hash)) as [->|Hne].
    + apply lookup_delete_eq.
    + apply lookup_delete_ne. intros E. by apply Hne, hashToStringMapKey_inj.
Qed.

(** X3. The last write wins, hash by hash: after any sequence of calls on
    the in-memory backend, [Get(hash)] reports what the calls on that hash
    alone leave of its entry; calls on other hashes play no part. *)
Theorem X3_in_memory_last_write_wins hm hash os :
  blockstorage.HashedBlockMapInMemory_Get (blockstorage.run_ops hm os) hash
  = Get_result
      (foldl (entry_after hash)
         (entry_of (blockstorage.HashedBlockMapInMemory_Get hm hash)) os).
Proof.
  rewrite !Get_result_lookup, entry_of_Get_result. f_equal.
  revert hm. induction os as [|o os IH]; intros hm; [reflexivity|].
  cbn [foldl]. rewrite <- lookup_run_op. apply IH.
Qed.

(** X4. Calls on two different hashes commute: the backend ends in the same
    state whichever comes first. *)
Theorem X4_in_memory_distinct_hashes_commute hm h1 h2 d1 d2 :
  h1 ≠ h2 →
  blockstorage.HashedBlockMapInMemory_Set
    (blockstorage.HashedBlockMapInMemory_Set hm h1 d1) h2 d2
  = blockstorage.HashedBlockMapInMemory_Set
      (blockstorage.HashedBlockMapInMemory_Set hm h2 d2) h1 d1
  ∧ blockstorage.HashedBlockMapInMemory_Delete
      (blockstorage.HashedBlockMapInMemory_Set hm h1 d1) h2
    = blockstorage.HashedBlockMapInMemory_Set
        (blockstorage.HashedBlockMapInMemory_Delete hm h2) h1 d1
  ∧ blockstorage.HashedBlockMapInMemory_Delete
      (blockstorage.HashedBlockMapInMemory_Delete hm h1) h2
    = blockstorage.HashedBlockMapInMemory_Delete
        (blockstorage.HashedBlockMapInMemory_Delete hm h2) h1.
Proof.
  intros Hne.
  assert (Hkey : blockstorage.hashToStringMapKey h2
                 ≠ blockstorage.hashToStringMapKey h1).
  { intros E. by apply Hne, eq_sym, hashToStringMapKey_inj. }
  unfold blockstorage.HashedBlockMapInMemory_Set,
    blockstorage.HashedBlockMapInMemory_Delete. cbn.
  split; [|split]; f_equal.
  - by apply insert_insert_ne.
  - by apply delete_insert_ne.
  - apply delete_delete.
Qed.

Lemma X4_in_memory_distinct_hashes_commute_witness :
  fake.H1 ≠ fake.H2
  ∧ blockstorage.HashedBlockMapInMemory_Set
      (blockstorage.HashedBlockMapInMemory_Set
         blockstorage.NewHashedBlockMapInMemory fake.H1 fake.D1)
      fake.H2 fake.D2
    = blockstorage.HashedBlockMapInMemory_Set
        (blockstorage.HashedBlockMapInMemory_Set
           blockstorage.NewHashedBlockMapInMemory fake.H2 fake.D2)
        fake.H1 fake.D1.
Proof.
  assert (Hne : fake.H1 ≠ fake.H2) by discriminate.
  split; [exact Hne|].
  exact (proj1 (X4_in_memory_distinct_hashes_commute
                  blockstorage.NewHashedBlockMapInMemory
                  fake.H1 fake.H2 fake.D1 fake.D2 Hne)).
Defined.

(** X5. On one hash, a [Set] overwrites an earlier [Set], so setting the
    same bytes twice is the same as setting them once; a [Delete] undoes a
    [Set] and is the same done twice as done once; the [Delete] of a hash
    that is not stored, and the [Set] of the bytes that are stored, leave the
    backend as it is. *)
Theorem X5_in_memory_same_hash_laws hm hash data data' :
  blockstorage.HashedBlockMapInMemory_Set
    (blockstorage.HashedBlockMapInMemory_Set hm hash data') hash data
  = blockstorage.HashedBlockMapInMemory_Set hm hash data
  ∧ blockstorage.HashedBlockMapInMemory_Delete
      (blockstorage.HashedBlockMapInMemory_Set hm hash data) hash
    = blockstorage.HashedBlockMapInMemory_Delete hm hash
  ∧ blockstorage.HashedBlockMapInMemory_Delete
      (blockstorage.HashedBlockMapInMemory_Delete hm hash) hash
    = blockstorage.HashedBlockMapInMemory_Delete hm hash
  ∧ match blockstorage.HashedBlockMapInMemory_Get hm hash with
    | (_, false) => blockstorage.HashedBlockMapInMemory_Delete hm hash = hm
    | (stored, true) =>
        blockstorage.HashedBlockMapInMemory_Set hm hash stored = hm
    end.
Proof.
  unfold blockstorage.HashedBlockMapInMemory_Set,
    blockstorage.HashedBlockMapInMemory_Delete,
    blockstorage.HashedBlockMapInMemory_Get. cbn.
  split; [by rewrite insert_insert_eq|].
  split; [by rewrite delete_insert_eq|].
  split; [by rewrite delete_delete_eq|].
  destruct hm as [m]. cbn.
  destruct (m !! blockstorage.hashToStringMapKey hash) as [stored|] eqn:Hm;
    f_equal.
  - by apply insert_id.
  - by apply delete_id.
Qed.

(** ** The service on the in-memory backend: what the cache keeps *)

Lemma in_memory_Get_Set hm hash data :
  blockstorage.Get (blockstorage.Set_ hm hash data) hash = (data, true).
Proof.
  cbn. unfold blockstorage.HashedBlockMapInMemory_Get. cbn.
  by rewrite lookup_insert_eq.
Qed.

Lemma cache_extends_refl {C : Type} `{!blockstorage.HashBlockStorageI C}
    (c : C) :
  cache_extends c c.
Proof. by intros hash data. Qed.

Lemma cache_extends_trans {C : Type} `{!blockstorage.HashBlockStorageI C}
    (c1 c2 c3 : C) :
  cache_extends c1 c2 → cache_extends c2 c3 → cache_extends c1 c3.
Proof. intros H12 H23 hash data Hget. by apply H23, H12. Qed.

(** The [Set] of a hash that is not stored keeps every stored block. *)
Lemma in_memory_Set_extends (hm : blockstorage.HashedBlockMapInMemory)
    hash data0 data :
  blockstorage.Get hm hash = (data0, false) →
  cache_extends hm (blockstorage.Set_ hm hash data).
Proof.
  intros Hmiss hash' data' Hhit. cbn in *.
  unfold blockstorage.HashedBlockMapInMemory_Get in *. cbn.
  destruct (decide (hash = hash')) as [->|Hne].
  - rewrite Hhit in Hmiss. discriminate.
  - rewrite lookup_insert_ne; [exact Hhit|].
    intros E. by apply Hne, hashToStringMapKey_inj.
Qed.

Section in_memory_service.

Context {FileSet Snapshot Net : Type}.
Context `{!IndexI FileSet Snapshot}.
Context `{!ReplicationI Net Snapshot}.

Implicit Types f g :
  virtualFolderSyncthingService blockstorage.HashedBlockMapInMemory FileSet Net.

(** One fetch keeps every cached block, and a fetch that succeeds leaves
    the bytes it returns in the cache. *)
Lemma GetBlockData_cache snap fi b f :
  let r := GetBlockDataFromCacheOrDownload snap fi b f in
  cache_extends (blockCache f) (blockCache r.2) ∧
  (r.1.2 = true →
   blockstorage.Get (blockCache r.2) (protocol.Hash b) = (r.1.1, true)).
Proof.
  intros r. subst r.
  destruct (GetBlockData_cases snap fi b f)
    as [(data & Hget & ->)|[(data0 & net' & sunk & e & Hget & _ & ->)
                           |(data0 & net' & sunk & Hget & _ & ->)]];
    cbn [fst snd].
  - split; [apply cache_extends_refl|]. intros _. exact Hget.
  - split; [apply cache_extends_refl|]. discriminate.
  - split.
    + change (cache_extends (blockCache f)
                (blockstorage.Set_ (blockCache f) (protocol.Hash b)
                   (run_sink data0 sunk))).
      by eapply in_memory_Set_extends.
    + intros _. apply in_memory_Get_Set.
Qed.

(** The loop over the blocks keeps every cached block; when it ends with
    [all_ok] true, every block of the list is in the cache. *)
Lemma fetch_blocks_cache snap fi blocks : ∀ all_ok f,
  let r := fetch_blocks snap fi blocks all_ok f in
  cache_extends (blockCache f) (blockCache r.2) ∧
  (r.1 = true →
   Forall (λ b, (blockstorage.Get (blockCache r.2) (protocol.Hash b)).2 = true)
     blocks).
Proof.
  induction blocks as [|b blocks IH]; intros all_ok f; cbn [fetch_blocks].
  - split; [apply cache_extends_refl|]. intros _. constructor.
  - destruct (GetBlockData_cache snap fi b f) as [Hext Hhit].
    destruct (GetBlockData_segment snap fi b f) as (seg & _ & _ & _ & _).
    destruct (GetBlockDataFromCacheOrDownload snap fi b f) as [[data ok] f1].
    cbn [fst snd] in *.
    destruct (IH (all_ok && ok) f1) as [Hext' Hall].
    pose proof (fetch_blocks_segments snap fi blocks (all_ok && ok) f1)
      as (segs & _ & _ & Hok & _).
    split; [by eapply cache_extends_trans|].
    intros Htrue. rewrite Htrue in Hok. symmetry in Hok.
    apply andb_prop in Hok as [Hok _]. apply andb_prop in Hok as [_ ->].
    constructor; [|by apply Hall].
    specialize (Hhit eq_refl). by rewrite (Hext' _ _ Hhit).
Qed.

(** The cache after a job is the cache after the loop over the blocks of
    its file, or the cache as it was when the job ends before the loop. *)
Lemma process_job_fetches job f :
  match fset_Snapshot (fset f) with
  | inr _ => blockCache (process_job job f) = blockCache f
  | inl snap =>
      match snap_GetGlobal snap job with
      | None => blockCache (process_job job f) = blockCache f
      | Some fi =>
          let r := fetch_blocks snap fi (protocol.Blocks fi) true
                     (record (call_snap_GetGlobal job true)
                        (record (call_fset_Snapshot true) f)) in
          blockCache (process_job job f) = blockCache r.2 ∧
          (existsb is_UpdateOne (calls_since f (process_job job f)) = true →
           r.1 = true)
      end
  end.
Proof.
  unfold process_job, process_job_body.
  destruct (fset_Snapshot (fset f)) as [snap|err]; [|reflexivity].
  destruct (snap_GetGlobal snap job) as [fi|]; [|reflexivity].
  set (f0 := record (call_snap_GetGlobal job true)
               (record (call_fset_Snapshot true) f)).
  cbn zeta.
  destruct (fetch_blocks_segments snap fi (protocol.Blocks fi) true f0)
    as (segs & Hsegs & Hcalls & _ & _).
  destruct (fetch_blocks snap fi (protocol.Blocks fi) true f0)
    as [[|] f1]; cbn [fst snd negb] in *; split; try reflexivity.
  intros Hpub. exfalso. revert Hpub.
  unfold calls_since. calls_norm. rewrite Hcalls. subst f0. calls_norm.
  rewrite drop_app_length. cbn [existsb is_UpdateOne orb].
  rewrite existsb_app. cbn [existsb is_UpdateOne orb]. rewrite orb_false_r.
  intros Hex. apply existsb_exists in Hex as (c & Hin & Hc).
  apply list_elem_of_In in Hin.
  assert (Hin' : c ∈ filter is_UpdateOne (concat segs))
    by (apply list_elem_of_filter; split; [by rewrite Hc|done]).
  rewrite (fetch_segments_filter is_UpdateOne fi _ _
             (fetch_segment_no_UpdateOne fi) Hsegs) in Hin'.
  by apply not_elem_of_nil in Hin'.
Qed.

(** X6. Read your fetch: the bytes a fetch returns with [true] are in the
    cache afterwards, and a later fetch of a block with the same hash
    returns the same bytes from the cache, without a pull and without a
    change of the cache. *)
Theorem X6_fetch_then_cache_hit snap fi b f :
  let r := GetBlockDataFromCacheOrDownload snap fi b f in
  r.1.2 = true →
  blockstorage.Get (blockCache r.2) (protocol.Hash b) = (r.1.1, true) ∧
  ∀ snap' fi' b',
    protocol.Hash b' = protocol.Hash b →
    let r' := GetBlockDataFromCacheOrDownload snap' fi' b' r.2 in
    r'.1 = (r.1.1, true) ∧
    calls_since r.2 r'.2 = [blockCache_Get (protocol.Hash b) true] ∧
    blockCache r'.2 = blockCache r.2.
Proof.
  intros r Hok. subst r.
  destruct (GetBlockData_cache snap fi b f) as [_ Hhit].
  specialize (Hhit Hok). split; [exact Hhit|].
  intros snap' fi' b' Hhash r'. subst r'.
  rewrite <- Hhash in Hhit.
  rewrite (GetBlockData_hit snap' fi' b' _ _ Hhit). cbn [fst snd].
  rewrite <- Hhash. split; [reflexivity|]. split; [|reflexivity].
  by calls_since_norm.
Qed.

(** X7. The service never evicts or overwrites a cached block: a block in
    the cache is still there, with the same bytes, after a fetch, after the
    processing of a job and after a round of a worker; [Scan] and
    [RequestBackgroundDownload] leave the cache as it is. *)
Theorem X7_cache_only_grows f :
  (∀ snap fi b,
     cache_extends (blockCache f)
       (blockCache (GetBlockDataFromCacheOrDownload snap fi b f).2)) ∧
  (∀ job, cache_extends (blockCache f) (blockCache (process_job job f))) ∧
  cache_extends (blockCache f) (blockCache (drain_round f).2) ∧
  (∀ subs, blockCache (Scan subs f).2 = blockCache f) ∧
  (∀ filename size modified,
     blockCache (RequestBackgroundDownload filename size modified f)
     = blockCache f).
Proof.
  assert (Hjob : ∀ g job,
            cache_extends (blockCache g) (blockCache (process_job job g))).
  { intros g job. pose proof (process_job_fetches job g) as Hf.
    destruct (fset_Snapshot (fset g)) as [snap|err];
      [|rewrite Hf; apply cache_extends_refl].
    destruct (snap_GetGlobal snap job) as [fi|];
      [|rewrite Hf; apply cache_extends_refl].
    destruct Hf as [-> _].
    apply (fetch_blocks_cache snap fi (protocol.Blocks fi) true
             (record (call_snap_GetGlobal job true)
                (record (call_fset_Snapshot true) g))). }
  assert (Hreq : ∀ g filename size modified,
            blockCache (RequestBackgroundDownload filename size modified g)
            = blockCache g).
  { intros g filename size modified. unfold RequestBackgroundDownload.
    destruct (jobQueue.PushIfNew _ _ _ _) as [q [|]]; cbn [negb];
      [|reflexivity].
    unfold send_pending. by destruct (_ <? _)%nat. }
  split; [intros snap fi b; apply GetBlockData_cache|].
  split; [apply Hjob|]. split; [|split; [|apply Hreq]].
  - unfold drain_round.
    destruct (jobQueue.Pop (backgroundDownloadQueue f)) as [[job [|]] q];
      cbn [fst snd]; [|apply cache_extends_refl].
    apply (Hjob (record (queue_Pop job true)
                   (set_backgroundDownloadQueue q f))).
  - intros subs. unfold Scan.
    destruct (fset_Snapshot (fset f)) as [snap|err]; [|reflexivity].
    cbn [snd].
    change (blockCache f)
      with (blockCache (record (call_fset_Snapshot true) f)).
    generalize (record (call_fset_Snapshot true) f).
    induction (snap_WithNeedTruncated snap protocol.LocalDeviceID)
      as [|e entries IH]; intros g; [reflexivity|].
    cbn [foldl]. rewrite IH. unfold Scan_visit.
    destruct (protocol.IsDirectory e); [|apply Hreq].
    by destruct (snap_GetGlobal snap (protocol.FileName e)).
Qed.

(** X8. A file is published only with all its blocks in the cache: when
    the processing of a job calls [UpdateOne], the cache afterwards holds
    every block of the global file of the job. *)
Theorem X8_published_file_is_cached job f :
  existsb is_UpdateOne (calls_since f (process_job job f)) = true →
  ∃ snap fi,
    fset_Snapshot (fset f) = inl snap ∧
    snap_GetGlobal snap job = Some fi ∧
    Forall (λ b, (blockstorage.Get (blockCache (process_job job f))
                    (protocol.Hash b)).2 = true)
      (protocol.Blocks fi).
Proof.
  intros Hpub. pose proof (process_job_fetches job f) as Hf.
  destruct (fset_Snapshot (fset f)) as [snap|err] eqn:Hsnap.
  2:{ exfalso. revert Hpub. unfold process_job, process_job_body.
      rewrite Hsnap. calls_since_norm. discriminate. }
  destruct (snap_GetGlobal snap job) as [fi|] eqn:Hglobal.
  2:{ exfalso. revert Hpub. unfold process_job, process_job_body.
      rewrite Hsnap, Hglobal. calls_since_norm. discriminate. }
  exists snap, fi. split; [reflexivity|]. split; [exact Hglobal|].
  cbn zeta in Hf. destruct Hf as [-> Hok].
  apply (fetch_blocks_cache snap fi (protocol.Blocks fi) true
           (record (call_snap_GetGlobal job true)
              (record (call_fset_Snapshot true) f))).
  by apply Hok.
Qed.

End in_memory_service.

(** ** The loop of a worker over the queue *)

Lemma fetch_segment_no_Pop fi b seg :
  fetch_segment fi b seg → filter is_Pop seg = [].
Proof. intros [->|[[e ->]|[d ->]]]; reflexivity. Qed.

Section worker_loop_facts.

Context {C FileSet Snapshot Net : Type}.
Context `{!blockstorage.HashBlockStorageI C}.
Context `{!IndexI FileSet Snapshot}.
Context `{!ReplicationI Net Snapshot}.

Implicit Types f g : virtualFolderSyncthingService C FileSet Net.

(** X9. A job whose global file has no blocks (an empty or a deleted file)
    is published at once: the index is updated and the event logged
    without any call on the cache or on the peers. *)
Theorem X9_file_without_blocks_is_published job f snap fi :
  fset_Snapshot (fset f) = inl snap →
  snap_GetGlobal snap job = Some fi →
  protocol.Blocks fi = [] →
  let f' := process_job job f in
  fset f' = fset_UpdateOne (fset f) protocol.LocalDeviceID fi ∧
  blockCache f' = blockCache f ∧
  net f' = net f ∧
  calls_since f f'
  = [call_fset_Snapshot true; call_snap_GetGlobal job true;
     call_fset_UpdateOne protocol.LocalDeviceID fi;
     call_fset_Sequence protocol.LocalDeviceID
       (fset_Sequence (fset f') protocol.LocalDeviceID);
     evLogger_Log events.LocalIndexUpdated
       (LocalIndexUpdated_data (ID f) (protocol.Name fi)
          (fset_Sequence (fset f') protocol.LocalDeviceID));
     queue_Done job].
Proof.
  intros Hsnap Hglobal Hblocks f'. subst f'.
  unfold process_job, process_job_body. rewrite Hsnap, Hglobal, Hblocks.
  cbn [fetch_blocks negb]. repeat split. by calls_since_norm.
Qed.

Lemma job_path_no_queue_calls job f body fs :
  job_path job f body fs →
  filter is_Done body = [] ∧ filter is_Pop body = [].
Proof.
  intros [| |snap fi segs _ _ Hsegs _|snap fi segs fs' seq _ _ Hsegs _ _ _];
    [by split|by split| |];
    rewrite !filter_app,
      (fetch_segments_filter is_Done fi _ segs
         (fetch_segment_no_Done fi) Hsegs),
      (fetch_segments_filter is_Pop fi _ segs
         (fetch_segment_no_Pop fi) Hsegs);
    by split.
Qed.

(** A round on a queue with a pending job. *)
Lemma drain_round_pop f job q :
  jobQueue.Pop (backgroundDownloadQueue f) = (job, true, q) →
  let r := drain_round f in
  r.1 = true ∧
  backgroundDownloadQueue r.2 = jobQueue.Done q job ∧
  backgroundDownloadPending r.2 = backgroundDownloadPending f ∧
  ∃ body,
    calls r.2 = calls f ++ [queue_Pop job true] ++ body ++ [queue_Done job] ∧
    filter is_Done body = [] ∧ filter is_Pop body = [].
Proof.
  intros Hpop r. subst r. unfold drain_round. rewrite Hpop. cbn [fst snd].
  set (f0 := record (queue_Pop job true) (set_backgroundDownloadQueue q f)).
  destruct (process_job_path job f0)
    as (body & Hpath & Hcalls & _ & _ & Hpending & Hqueue).
  split; [reflexivity|]. split; [exact Hqueue|]. split; [exact Hpending|].
  exists body. destruct (job_path_no_queue_calls _ _ _ _ Hpath) as [HD HP].
  split; [|by split]. rewrite Hcalls. subst f0. calls_norm. reflexivity.
Qed.

(** A round on a queue without pending jobs. *)
Lemma drain_round_empty f :
  jobQueue.queued (backgroundDownloadQueue f) = [] →
  let r := drain_round f in
  r.1 = false ∧
  backgroundDownloadQueue r.2 = backgroundDownloadQueue f ∧
  backgroundDownloadPending r.2 = backgroundDownloadPending f ∧
  calls r.2 = calls f ++ [queue_Pop "" false].
Proof.
  intros Hq r. subst r. unfold drain_round, jobQueue.Pop. rewrite Hq.
  by repeat split.
Qed.

Lemma Pop_cons q e rest :
  jobQueue.queued q = e :: rest →
  jobQueue.Pop q
  = (jobQueue.name e, true,
     jobQueue.mkQueue rest ({[jobQueue.name e]} ∪ jobQueue.progress q)).
Proof. unfold jobQueue.Pop. by intros ->. Qed.

(** With rounds enough, the loop pops every pending job in order, marks
    each done, and ends by a [Pop] that finds the queue empty. *)
Lemma drain_spec l : ∀ f rounds,
  jobQueue.queued (backgroundDownloadQueue f) = l →
  jobQueue.wf (backgroundDownloadQueue f) →
  (length l < rounds)%nat →
  let f' := drain rounds f in
  jobQueue.queued (backgroundDownloadQueue f') = [] ∧
  jobQueue.progress (backgroundDownloadQueue f')
  = jobQueue.progress (backgroundDownloadQueue f) ∧
  backgroundDownloadPending f' = backgroundDownloadPending f ∧
  ∃ new,
    calls f' = calls f ++ new ∧
    filter is_Done new = queue_Done <$> (jobQueue.name <$> l) ∧
    filter is_Pop new
    = ((λ job, queue_Pop job true) <$> (jobQueue.name <$> l))
      ++ [queue_Pop "" false].
Proof.
  induction l as [|e rest IH]; intros f rounds Hq Hwf Hrounds;
    (destruct rounds as [|rounds]; [cbn in Hrounds; lia|]);
    cbn [drain].
  - destruct (drain_round_empty f Hq) as (Hok & Hqueue & Hpending & Hcalls).
    destruct (drain_round f) as [ok f1]. cbn [fst snd] in *. subst ok.
    rewrite Hqueue, Hq. repeat split; [exact Hpending|].
    exists [queue_Pop "" false]. by split.
  - pose proof (Pop_cons _ _ _ Hq) as Hpop.
    destruct (Pop_Done_absent _ _ _ Hwf Hpop) as (_ & _ & Hwf').
    destruct (drain_round_pop f _ _ Hpop)
      as (Hok & Hqueue & Hpending & body & Hcalls & HD & HP).
    destruct (drain_round f) as [ok f1]. cbn [fst snd] in *. subst ok.
    rewrite <- Hqueue in Hwf'.
    destruct (IH f1 rounds) as (Hq' & Hprog & Hpend & new & Hc & HD' & HP');
      [by rewrite Hqueue|exact Hwf'|cbn in Hrounds; lia|].
    split; [exact Hq'|]. split; [|split; [congruence|]].
    + rewrite Hprog, Hqueue. cbn.
      destruct Hwf as [_ Hdisj]. specialize (Hdisj (jobQueue.name e)).
      rewrite Hq in Hdisj. cbn in Hdisj.
      assert (Hnotin : jobQueue.name e
                       ∉ jobQueue.progress (backgroundDownloadQueue f))
        by (apply Hdisj; apply list_elem_of_here).
      apply set_eq. intros x.
      rewrite elem_of_difference, elem_of_union, elem_of_singleton.
      split; [by intros [[->|Hx] Hne]|].
      intros Hx. split; [by right|]. by intros ->.
    + exists ([queue_Pop (jobQueue.name e) true] ++ body
              ++ [queue_Done (jobQueue.name e)] ++ new).
      split; [|split].
      * rewrite Hc, Hcalls. by rewrite <- !app_assoc.
      * rewrite !filter_app, HD, HD'. reflexivity.
      * rewrite !filter_app, HP, HP'. reflexivity.
Qed.

(** More rounds than that change nothing. *)
Lemma drain_rounds l : ∀ f rounds1 rounds2,
  jobQueue.queued (backgroundDownloadQueue f) = l →
  (length l < rounds1)%nat → (length l < rounds2)%nat →
  drain rounds1 f = drain rounds2 f.
Proof.
  induction l as [|e rest IH]; intros f rounds1 rounds2 Hq H1 H2;
    (destruct rounds1 as [|rounds1]; [cbn in H1; lia|]);
    (destruct rounds2 as [|rounds2]; [cbn in H2; lia|]);
    cbn [drain].
  - destruct (drain_round_empty f Hq) as (Hok & _).
    destruct (drain_round f) as [ok f1]. cbn [fst] in Hok. by subst ok.
  - pose proof (Pop_cons _ _ _ Hq) as Hpop.
    destruct (drain_round_pop f _ _ Hpop) as (Hok & Hqueue & _).
    destruct (drain_round f) as [ok f1]. cbn [fst snd] in *. subst ok.
    apply IH; [by rewrite Hqueue|cbn in H1; lia|cbn in H2; lia].
Qed.

(** X10. The loop of a worker over the queue empties it: on a well-formed
    queue it pops every pending job in the order of the queue, marks each
    done, ends by the [Pop] that finds no job, and leaves no job pending;
    the jobs in progress and the channel are as before. The bound on the
    rounds in the model is never reached: any larger bound gives the same
    state. *)
Theorem X10_drain_empties_queue f :
  jobQueue.wf (backgroundDownloadQueue f) →
  let names := jobQueue.name <$> jobQueue.queued (backgroundDownloadQueue f) in
  let f' := drain_queue f in
  jobQueue.queued (backgroundDownloadQueue f') = [] ∧
  jobQueue.progress (backgroundDownloadQueue f')
  = jobQueue.progress (backgroundDownloadQueue f) ∧
  backgroundDownloadPending f' = backgroundDownloadPending f ∧
  filter is_Pop (calls_since f f')
  = ((λ job, queue_Pop job true) <$> names) ++ [queue_Pop "" false] ∧
  filter is_Done (calls_since f f') = queue_Done <$> names ∧
  ∀ rounds,
    (length (jobQueue.queued (backgroundDownloadQueue f)) < rounds)%nat →
    drain rounds f = f'.
Proof.
  intros Hwf names f'. subst names f'. unfold drain_queue.
  destruct (drain_spec _ f (S (length (jobQueue.queued
                                         (backgroundDownloadQueue f))))
              eq_refl Hwf ltac:(lia))
    as (Hq & Hprog & Hpend & new & Hc & HD & HP).
  rewrite (calls_since_app _ _ _ Hc).
  repeat split; try assumption.
  intros rounds Hrounds. by eapply drain_rounds; [reflexivity| |lia].
Qed.

Lemma Request_wf filename size modified f :
  jobQueue.wf (backgroundDownloadQueue f) →
  jobQueue.wf
    (backgroundDownloadQueue
       (RequestBackgroundDownload filename size modified f)).
Proof.
  intros Hwf. pose proof (PushIfNew_wf _ filename size modified Hwf) as Hwf'.
  unfold RequestBackgroundDownload.
  destruct (jobQueue.PushIfNew _ _ _ _) as [q [|]]; cbn [fst negb] in *;
    [|exact Hwf'].
  unfold send_pending.
  destruct (_ <? _)%nat; cbn; by apply SortAccordingToConfig_wf.
Qed.

Lemma Request_wake_inv filename size modified f :
  wake_inv f → wake_inv (RequestBackgroundDownload filename size modified f).
Proof.
  intros (Hcap & Hwf & Htoken).
  split; [by apply Request_pending_cap|]. split; [by apply Request_wf|].
  destruct (jobQueue.PushIfNew (backgroundDownloadQueue f) filename size
              modified) as [q [|]] eqn:Hpush.
  - intros _. rewrite (Request_new _ _ _ _ _ Hpush).
    match goal with |- backgroundDownloadPending (send_pending ?g) = 1 =>
      by destruct (send_pending_cap g Hcap) as [-> _] end.
  - rewrite Request_duplicate; [exact Htoken|].
    unfold jobQueue.PushIfNew in Hpush.
    destruct (jobQueue.is_pending _ _ || jobQueue.is_in_progress _ _);
      [reflexivity|discriminate].
Qed.

Lemma Scan_visit_wake_inv snap f e :
  wake_inv f → wake_inv (Scan_visit snap f e).
Proof.
  intros Hinv. unfold Scan_visit.
  destruct (protocol.IsDirectory e); [|by apply Request_wake_inv].
  by destruct (snap_GetGlobal snap (protocol.FileName e)).
Qed.

(** X11. No job is stranded. Take the calls of the service one at a time,
    and start with at most one token in the channel, a well-formed queue,
    and a token in the channel whenever a job is pending. Then a request
    and a scan keep this; a worker waits only when no job is pending; and a
    pass of a worker takes the token, leaves no job pending, and keeps it
    as well. *)
Theorem X11_no_job_is_stranded f :
  wake_inv f →
  (∀ filename size modified,
     wake_inv (RequestBackgroundDownload filename size modified f)) ∧
  (∀ subs, wake_inv (Scan subs f).2) ∧
  match Serve_backgroundDownloadTask_pass f with
  | None => jobQueue.queued (backgroundDownloadQueue f) = []
  | Some f' =>
      jobQueue.queued (backgroundDownloadQueue f') = [] ∧
      backgroundDownloadPending f' = 0 ∧
      wake_inv f'
  end.
Proof.
  intros Hinv. split; [intros; by apply Request_wake_inv|]. split.
  - intros subs. unfold Scan.
    destruct (fset_Snapshot (fset f)) as [snap|err]; [|exact Hinv].
    cbn [snd].
    assert (Hinv0 : wake_inv (record (call_fset_Snapshot true) f))
      by exact Hinv.
    revert Hinv0. generalize (record (call_fset_Snapshot true) f).
    induction (snap_WithNeedTruncated snap protocol.LocalDeviceID)
      as [|e entries IH]; intros g Hg; [exact Hg|].
    cbn [foldl]. by apply IH, Scan_visit_wake_inv.
  - destruct Hinv as (Hcap & Hwf & Htoken).
    unfold Serve_backgroundDownloadTask_pass, receive_pending.
    destruct (backgroundDownloadPending f) as [|n] eqn:Hp.
    + destruct (jobQueue.queued (backgroundDownloadQueue f)) as [|e rest];
        [reflexivity|].
      by specialize (Htoken ltac:(discriminate)).
    + assert (n = 0) as -> by (unfold backgroundDownloadPending_cap in Hcap; lia).
      unfold drain_queue.
      destruct (drain_spec _ (set_backgroundDownloadPending 0 f)
                  (S (length (jobQueue.queued
                                (backgroundDownloadQueue
                                   (set_backgroundDownloadPending 0 f)))))
                  eq_refl Hwf ltac:(lia))
        as (Hq & Hprog & Hpend & _).
      cbn [backgroundDownloadPending set_backgroundDownloadPending] in Hpend.
      split; [exact Hq|]. split; [exact Hpend|].
      split; [rewrite Hpend; unfold backgroundDownloadPending_cap; lia|].
      split.
      * split; rewrite Hq; [constructor|]. intros file Hfile.
        by apply not_elem_of_nil in Hfile.
      * rewrite Hq. by intros [].
Qed.

End worker_loop_facts.

(** ** [Scan] *)

Section Scan_facts.

Context {C FileSet Snapshot Net : Type}.
Context `{!blockstorage.HashBlockStorageI C}.
Context `{!IndexI FileSet Snapshot}.
Context `{!ReplicationI Net Snapshot}.

Implicit Types f g : virtualFolderSyncthingService C FileSet Net.

(** What a request changes: the queue and the channel only. *)
Lemma Request_effects filename size modified f :
  let f' := RequestBackgroundDownload filename size modified f in
  fset f' = fset f ∧ blockCache f' = blockCache f ∧ net f' = net f ∧
  jobQueue.progress (backgroundDownloadQueue f')
  = jobQueue.progress (backgroundDownloadQueue f) ∧
  ∃ new,
    calls f' = calls f ++ new ∧
    forallb is_Scan_call new = true ∧
    filter is_UpdateOne new = [] ∧
    pushed_names new = [filename].
Proof.
  cbn zeta. unfold RequestBackgroundDownload, jobQueue.PushIfNew.
  destruct (jobQueue.is_pending _ _ || jobQueue.is_in_progress _ _);
    cbn [negb].
  - repeat split. eexists. split; [calls_norm; reflexivity|done].
  - unfold send_pending. destruct (_ <? _)%nat; repeat split;
      eexists; (split; [calls_norm; reflexivity|done]).
Qed.

(** A request keeps the names the queue knows, and adds its own. *)
Lemma Request_keeps_known filename size modified f file :
  job_is_known (backgroundDownloadQueue f) file = true →
  job_is_known
    (backgroundDownloadQueue
       (RequestBackgroundDownload filename size modified f)) file = true.
Proof.
  unfold job_is_known, RequestBackgroundDownload, jobQueue.PushIfNew.
  intros Hknown.
  destruct (jobQueue.is_pending _ filename || jobQueue.is_in_progress _ filename);
    cbn [negb]; [exact Hknown|].
  unfold send_pending.
  destruct (_ <? _)%nat; cbn [backgroundDownloadQueue record
      set_backgroundDownloadQueue set_backgroundDownloadPending];
    rewrite SortAccordingToConfig_is_pending;
    apply orb_prop in Hknown as [Hp|Hi]; apply orb_true_intro;
    try (right; exact Hi);
    left; unfold jobQueue.is_pending in *; cbn;
    apply bool_decide_eq_true; apply bool_decide_eq_true in Hp;
    rewrite fmap_app, elem_of_app; by left.
Qed.

(** What the visit of one entry does. *)
Lemma Scan_visit_effects snap f e :
  let f' := Scan_visit snap f e in
  let adopted :=
    if protocol.IsDirectory e
    then option_list (snap_GetGlobal snap (protocol.FileName e))
    else [] in
  let requested :=
    if protocol.IsDirectory e then [] else [protocol.FileName e] in
  fset f'
  = foldl (λ fs fi, fset_UpdateOne fs protocol.LocalDeviceID fi)
      (fset f) adopted ∧
  blockCache f' = blockCache f ∧ net f' = net f ∧
  jobQueue.progress (backgroundDownloadQueue f')
  = jobQueue.progress (backgroundDownloadQueue f) ∧
  (∀ file, job_is_known (backgroundDownloadQueue f) file = true →
           job_is_known (backgroundDownloadQueue f') file = true) ∧
  (∀ file, file ∈ requested →
           job_is_known (backgroundDownloadQueue f') file = true) ∧
  ∃ new,
    calls f' = calls f ++ new ∧
    forallb is_Scan_call new = true ∧
    filter is_UpdateOne new
    = call_fset_UpdateOne protocol.LocalDeviceID <$> adopted ∧
    pushed_names new = requested.
Proof.
  cbn zeta. unfold Scan_visit. destruct (protocol.IsDirectory e).
  - destruct (snap_GetGlobal snap (protocol.FileName e)) as [fi|];
      cbn [option_list foldl];
      (repeat split; [done|by intros ? ?%not_elem_of_nil|]);
      eexists; (split; [calls_norm; reflexivity|done]).
  - destruct (Request_effects (protocol.FileName e) (protocol.FileSize e)
                (protocol.ModTime e) f)
      as (Hfset & Hcache & Hnet & Hprog & new & Hc & Hall & HU & HP).
    split; [exact Hfset|]. split; [exact Hcache|]. split; [exact Hnet|].
    split; [exact Hprog|].
    split; [intros file; apply Request_keeps_known|].
    split.
    + intros file ->%list_elem_of_singleton. apply Request_known.
    + exists new. by repeat split.
Qed.

(** The visits of a list of entries. *)
Lemma Scan_visits_effects snap entries : ∀ f,
  let f' := foldl (Scan_visit snap) f entries in
  let adopted :=
    omap (λ e : protocol.FileIntf,
            if protocol.IsDirectory e
            then snap_GetGlobal snap (protocol.FileName e) else None)
      entries in
  let requested :=
    protocol.FileName <$>
      filter (λ e : protocol.FileIntf, protocol.IsDirectory e = false)
        entries in
  fset f'
  = foldl (λ fs fi, fset_UpdateOne fs protocol.LocalDeviceID fi)
      (fset f) adopted ∧
  blockCache f' = blockCache f ∧ net f' = net f ∧
  jobQueue.progress (backgroundDownloadQueue f')
  = jobQueue.progress (backgroundDownloadQueue f) ∧
  (∀ file, job_is_known (backgroundDownloadQueue f) file = true →
           job_is_known (backgroundDownloadQueue f') file = true) ∧
  (∀ file, file ∈ requested →
           job_is_known (backgroundDownloadQueue f') file = true) ∧
  ∃ new,
    calls f' = calls f ++ new ∧
    forallb is_Scan_call new = true ∧
    filter is_UpdateOne new
    = call_fset_UpdateOne protocol.LocalDeviceID <$> adopted ∧
    pushed_names new = requested.
Proof.
  induction entries as [|e entries IH]; intros f; cbn zeta.
  - cbn. repeat split; [done|by intros ? ?%not_elem_of_nil|].
    exists []. by rewrite app_nil_r.
  - cbn [foldl].
    destruct (Scan_visit_effects snap f e)
      as (Hfset & Hcache & Hnet & Hprog & Hkeep & Hreq
          & new1 & Hc1 & Hall1 & HU1 & HP1).
    destruct (IH (Scan_visit snap f e))
      as (Hfset' & Hcache' & Hnet' & Hprog' & Hkeep' & Hreq'
          & new2 & Hc2 & Hall2 & HU2 & HP2).
    cbn zeta in *.
    split; [|split; [congruence|split; [congruence|split; [congruence|]]]].
    { rewrite Hfset', Hfset. cbn [omap list_omap].
      destruct (protocol.IsDirectory e);
        [destruct (snap_GetGlobal snap (protocol.FileName e))|];
        reflexivity. }
    split; [intros file Hk; by apply Hkeep', Hkeep|].
    split.
    { intros file. rewrite filter_cons.
      destruct (decide (protocol.IsDirectory e = false)) as [Hd|Hd].
      - rewrite Hd in Hreq. rewrite fmap_cons.
        intros [->|Hin]%elem_of_cons.
        + apply Hkeep', Hreq. apply list_elem_of_here.
        + by apply Hreq'.
      - apply Hreq'. }
    exists (new1 ++ new2). split; [by rewrite Hc2, Hc1, app_assoc|].
    split; [by rewrite forallb_app, Hall1, Hall2|].
    split.
    { rewrite filter_app, HU1, HU2. cbn [omap list_omap].
      destruct (protocol.IsDirectory e);
        [destruct (snap_GetGlobal snap (protocol.FileName e))|];
        reflexivity. }
    unfold pushed_names in *. rewrite omap_app, HP1, HP2.
    rewrite filter_cons.
    destruct (decide (protocol.IsDirectory e = false)) as [Hd|Hd].
    + by rewrite Hd.
    + by destruct (protocol.IsDirectory e).
Qed.

(** X12. What [Scan] does not do. It ignores its argument [subs]; it makes
    no call on the block cache or on the peers, logs no event, pops and
    completes no job, and leaves cache and connections as they are. When
    the snapshot cannot be taken it returns that error and changes nothing;
    otherwise it returns no error. *)
Theorem X12_Scan_bounds subs f :
  Scan subs f = Scan [] f ∧
  forallb is_Scan_call (calls_since f (Scan subs f).2) = true ∧
  blockCache (Scan subs f).2 = blockCache f ∧
  net (Scan subs f).2 = net f ∧
  match fset_Snapshot (fset f) with
  | inr err =>
      Scan subs f = (Some err, record (call_fset_Snapshot false) f)
  | inl _ => (Scan subs f).1 = None
  end.
Proof.
  split; [reflexivity|]. unfold Scan.
  destruct (fset_Snapshot (fset f)) as [snap|err].
  - cbn [fst snd].
    destruct (Scan_visits_effects snap
                (snap_WithNeedTruncated snap protocol.LocalDeviceID)
                (record (call_fset_Snapshot true) f))
      as (_ & Hcache & Hnet & _ & _ & _ & new & Hc & Hall & _).
    cbn zeta in *. rewrite calls_record, <- app_assoc in Hc.
    rewrite (calls_since_app _ _ _ Hc). cbn [app forallb is_Scan_call andb].
    by rewrite Hall, Hcache, Hnet.
  - cbn [fst snd]. split; [by calls_since_norm|]. by repeat split.
Qed.

(** X13. [Scan] adopts directories, and only them: the local index ends as
    the index it started with, updated, in the order of the visit, with the
    global file of every needed directory that the snapshot knows; no
    other call of [UpdateOne] is made. *)
Theorem X13_Scan_adopts_directories subs f snap :
  fset_Snapshot (fset f) = inl snap →
  fset (Scan subs f).2
  = foldl (λ fs fi, fset_UpdateOne fs protocol.LocalDeviceID fi)
      (fset f) (Scan_adopted snap) ∧
  filter is_UpdateOne (calls_since f (Scan subs f).2)
  = call_fset_UpdateOne protocol.LocalDeviceID <$> Scan_adopted snap.
Proof.
  intros Hsnap. unfold Scan. rewrite Hsnap. cbn [snd].
  destruct (Scan_visits_effects snap
              (snap_WithNeedTruncated snap protocol.LocalDeviceID)
              (record (call_fset_Snapshot true) f))
    as (Hfset & _ & _ & _ & _ & _ & new & Hc & _ & HU & _).
  cbn zeta in *. rewrite calls_record, <- app_assoc in Hc.
  rewrite (calls_since_app _ _ _ Hc). split; [exact Hfset|].
  cbn [app]. rewrite filter_cons. exact HU.
Qed.

(** X14. [Scan] requests the download of every needed entry that is no
    directory, once each and in the order of the visit; afterwards each of
    them is pending or in progress, the names the queue knew before are
    still known, and the jobs in progress are the same. *)
Theorem X14_Scan_requests_files subs f snap :
  fset_Snapshot (fset f) = inl snap →
  let q' := backgroundDownloadQueue (Scan subs f).2 in
  pushed_names (calls_since f (Scan subs f).2) = Scan_requested snap ∧
  Forall (λ file, job_is_known q' file = true) (Scan_requested snap) ∧
  (∀ file, job_is_known (backgroundDownloadQueue f) file = true →
           job_is_known q' file = true) ∧
  jobQueue.progress q' = jobQueue.progress (backgroundDownloadQueue f).
Proof.
  intros Hsnap. unfold Scan. rewrite Hsnap. cbn [snd].
  destruct (Scan_visits_effects snap
              (snap_WithNeedTruncated snap protocol.LocalDeviceID)
              (record (call_fset_Snapshot true) f))
    as (_ & _ & _ & Hprog & Hkeep & Hreq & new & Hc & _ & _ & HP).
  cbn zeta in *. rewrite calls_record, <- app_assoc in Hc.
  rewrite (calls_since_app _ _ _ Hc).
  split; [exact HP|]. split; [by apply Forall_forall|].
  split; [exact Hkeep|exact Hprog].
Qed.

End Scan_facts.

(** ** More on byte strings and on the folder path of [Serve] *)

Lemma HasPrefix_split p : ∀ s,
  gostrings.HasPrefix s p = true →
  s = p +:+ gostrings.string_drop (String.length p) s.
Proof.
  induction p as [|c p IH]; intros s; [reflexivity|].
  destruct s as [|d s]; cbn; [discriminate|].
  destruct (Ascii.eqb c d) eqn:Hcd; [|discriminate].
  apply Ascii.eqb_eq in Hcd as ->. intros Hp.
  rewrite append_cons. f_equal. by apply IH.
Qed.

Lemma HasPrefix_nil_nonempty c sep :
  gostrings.HasPrefix "" (String c sep) = false.
Proof. reflexivity. Qed.

Lemma HasPrefix_take p : ∀ n s,
  gostrings.HasPrefix (gostrings.string_take n s) p = true →
  gostrings.HasPrefix s p = true.
Proof.
  induction p as [|c p IH]; intros n s; [reflexivity|].
  destruct n as [|n]; destruct s as [|d s]; cbn; try discriminate.
  destruct (Ascii.eqb c d); [apply IH|discriminate].
Qed.

Lemma string_drop_drop a : ∀ b s,
  gostrings.string_drop a (gostrings.string_drop b s)
  = gostrings.string_drop (b + a) s.
Proof.
  intros b. induction b as [|b IH]; intros s; [reflexivity|].
  destruct s as [|c s]; cbn; [by destruct a|apply IH].
Qed.

(** [Index] finds an instance: the string is what is before it, the
    separator, and what is after it. *)
Lemma Index_split sep : ∀ s i,
  gostrings.Index s sep = Some i →
  s = gostrings.string_take i s +:+ sep
      +:+ gostrings.string_drop (i + String.length sep) s.
Proof.
  induction s as [|c s IH]; intros i; cbn [gostrings.Index].
  - destruct (gostrings.HasPrefix "" sep) eqn:Hp; [|discriminate].
    intros [= <-]. by apply HasPrefix_split in Hp.
  - destruct (gostrings.HasPrefix (String c s) sep) eqn:Hp.
    + intros [= <-]. by apply HasPrefix_split in Hp.
    + destruct (gostrings.Index s sep) as [i'|] eqn:Hi; [|discriminate].
      intros [= <-]. cbn. rewrite append_cons. f_equal. by apply IH.
Qed.

(** [Index] finds the first instance: none lies before it. *)
Lemma Index_take_None c sep : ∀ s i,
  gostrings.Index s (String c sep) = Some i →
  gostrings.Index (gostrings.string_take i s) (String c sep) = None.
Proof.
  induction s as [|d s IH]; intros i; cbn [gostrings.Index].
  - rewrite HasPrefix_nil_nonempty. discriminate.
  - destruct (gostrings.HasPrefix (String d s) (String c sep)) eqn:Hp.
    + intros [= <-]. reflexivity.
    + destruct (gostrings.Index s (String c sep)) as [i'|] eqn:Hi;
        [|discriminate].
      intros [= <-]. cbn [gostrings.string_take gostrings.Index].
      destruct (gostrings.HasPrefix
                  (String d (gostrings.string_take i' s)) (String c sep))
        eqn:Hp'.
      * apply (HasPrefix_take _ (S i') (String d s)) in Hp'. congruence.
      * by rewrite (IH _ eq_refl).
Qed.

(** An instance at [p] makes [Index] find one at [p] or before. *)
Lemma Index_complete sep : ∀ s p,
  gostrings.HasPrefix (gostrings.string_drop p s) sep = true →
  ∃ i, gostrings.Index s sep = Some i ∧ (i ≤ p)%nat.
Proof.
  induction s as [|c s IH]; intros p Hp; cbn [gostrings.Index].
  - replace (gostrings.string_drop p "") with "" in Hp by (by destruct p).
    rewrite Hp. exists 0. split; [reflexivity|lia].
  - destruct (gostrings.HasPrefix (String c s) sep) eqn:Hp0.
    + exists 0. split; [reflexivity|lia].
    + destruct p as [|p]; [cbn in Hp; congruence|].
      cbn in Hp. destruct (IH p Hp) as (i & -> & Hle).
      exists (S i). split; [reflexivity|lia].
Qed.

(** A split into exactly two parts: the parts are what lies before and
    after the first instance of the separator, and the second part holds
    no instance. *)
Lemma Split_two c sep d x y :
  gostrings.Split d (String c sep) = [x; y] →
  ∃ i,
    gostrings.Index d (String c sep) = Some i ∧
    x = gostrings.string_take i d ∧
    y = gostrings.string_drop (i + String.length (String c sep)) d ∧
    gostrings.Index y (String c sep) = None.
Proof.
  unfold gostrings.Split.
  destruct (String.length d) as [|n] eqn:Hn; cbn [gostrings.genSplit];
    [discriminate|].
  destruct (gostrings.Index d (String c sep)) as [i|] eqn:Hi; [|discriminate].
  intros [= <- Hrest]. exists i. split; [reflexivity|]. split; [reflexivity|].
  destruct n as [|n]; cbn [gostrings.genSplit] in Hrest.
  - injection Hrest as <-. split; [reflexivity|].
    apply Index_bound in Hi. cbn in Hi.
    pose proof (string_length_drop (i + S (String.length sep)) d) as Hd.
    destruct (gostrings.string_drop (i + S (String.length sep)) d);
      [reflexivity|cbn in Hd; lia].
  - change (S (String.length sep)) with (String.length (String c sep))
      in Hrest.
    destruct (gostrings.Index
                (gostrings.string_drop (i + String.length (String c sep)) d)
                (String c sep)) as [j|] eqn:Hj.
    + injection Hrest as _ Hnil.
      destruct (genSplit_cons n
                  (gostrings.string_drop (j + String.length (String c sep))
                     (gostrings.string_drop
                        (i + String.length (String c sep)) d))
                  (String c sep)) as (x' & l & Hx).
      exfalso. revert Hnil. change (S (String.length sep))
        with (String.length (String c sep)). rewrite Hx. discriminate.
    + injection Hrest as <-. by split.
Qed.

Section Serve_more.

Context {C : Type}.
Variable NewGoCloudUrlStorage : string → C.
Variable MkdirAll : string → option protocol.error.

(** X15. What [Serve] accepts. When the resolution of a folder path gives
    a blob URL and a mount path, then either the path has the prefix
    [:virtual:] and is [:virtual:<blobUrl>:mount_at:<mountPath>], with no
    [:mount_at:] inside the blob URL or inside the mount path; or it has
    not, the directory [<path>_BlobStorage] was created, and the two are
    [file://<path>_BlobStorage?no_tmp_dir=yes] and [<path>R]. *)
Theorem X15_Serve_resolve_accepts_only Path blobUrl mountPath :
  Serve_resolve MkdirAll Path = Serve_goes_on (blobUrl, mountPath) →
  if gostrings.HasPrefix Path ":virtual:" then
    Path = ":virtual:" +:+ blobUrl +:+ ":mount_at:" +:+ mountPath ∧
    gostrings.Index blobUrl ":mount_at:" = None ∧
    gostrings.Index mountPath ":mount_at:" = None
  else
    MkdirAll (Path +:+ "_BlobStorage") = None ∧
    blobUrl = "file://" +:+ Path +:+ "_BlobStorage?no_tmp_dir=yes" ∧
    mountPath = Path +:+ "R".
Proof.
  unfold Serve_resolve, gostrings.CutPrefix.
  destruct (gostrings.HasPrefix Path ":virtual:") eqn:Hprefix.
  - destruct (gostrings.Split _ ":mount_at:") as [|x [|y [|z l]]] eqn:Hsplit;
      try discriminate.
    intros [= <- <-].
    apply Split_two in Hsplit as (i & Hi & -> & -> & Hnone).
    split; [|split; [by eapply Index_take_None|exact Hnone]].
    rewrite <- (Index_split _ _ _ Hi). by apply HasPrefix_split.
  - destruct (MkdirAll (Path +:+ "_BlobStorage")); [discriminate|].
    intros [= <- <-]. by rewrite append_assoc.
Qed.

(** X16. A descriptor in which [:mount_at:] is written twice is always
    refused: [Serve] returns the configuration error, whatever stands
    before, between and after the two. *)
Theorem X16_Serve_refuses_two_separators a b c :
  Serve_resolve MkdirAll
    (":virtual:" +:+ a +:+ ":mount_at:" +:+ b +:+ ":mount_at:" +:+ c)
  = Serve_return err_missing_mount_at
  ∧ ∀ mountPath,
      Serve_blockCache NewGoCloudUrlStorage MkdirAll
        (":virtual:" +:+ a +:+ ":mount_at:" +:+ b +:+ ":mount_at:" +:+ c)
        None mountPath
      = Serve_return err_missing_mount_at.
Proof.
  assert (Hres : Serve_resolve MkdirAll
                   (":virtual:" +:+ a +:+ ":mount_at:" +:+ b
                    +:+ ":mount_at:" +:+ c)
                 = Serve_return err_missing_mount_at).
  { unfold Serve_resolve. rewrite CutPrefix_app.
    set (d := a +:+ ":mount_at:" +:+ b +:+ ":mount_at:" +:+ c).
    destruct (gostrings.Split d ":mount_at:") as [|x [|y [|z l]]] eqn:Hsplit;
      try reflexivity.
    exfalso. apply Split_two in Hsplit as (i & Hi & _ & -> & Hnone).
    assert (H1 : gostrings.HasPrefix
                   (gostrings.string_drop (String.length a) d) ":mount_at:"
                 = true).
    { subst d. rewrite <- (Nat.add_0_r (String.length a)), string_drop_app.
      apply HasPrefix_app. }
    destruct (Index_complete _ _ _ H1) as (i' & Hi' & Hle).
    assert (i' = i) by congruence. subst i'.
    set (L := String.length ":mount_at:") in *.
    assert (H2 : gostrings.HasPrefix
                   (gostrings.string_drop
                      (String.length a - i + String.length b)
                      (gostrings.string_drop (i + L) d)) ":mount_at:"
                 = true).
    { rewrite string_drop_drop.
      replace (i + L + (String.length a - i + String.length b))
        with (String.length a + (L + (String.length b + 0))) by lia.
      subst d L. rewrite !string_drop_app. apply HasPrefix_app. }
    destruct (Index_complete _ _ _ H2) as (j & Hj & _). congruence. }
  split; [exact Hres|]. intros mountPath. unfold Serve_blockCache.
  by rewrite Hres.
Qed.

End Serve_more.

(** ** More runs on the test doubles *)

Lemma X6_fetch_then_cache_hit_witness :
  (GetBlockDataFromCacheOrDownload fake.index0 fake.file_bin fake.B1
     (fake.service0 fake.peer_full)).1.2 = true
  ∧ blockstorage.Get
      (blockCache
         (GetBlockDataFromCacheOrDownload fake.index0 fake.file_bin fake.B1
            (fake.service0 fake.peer_full)).2)
      (protocol.Hash fake.B1)
    = ((GetBlockDataFromCacheOrDownload fake.index0 fake.file_bin fake.B1
          (fake.service0 fake.peer_full)).1.1, true).
Proof.
  assert (Hok : (GetBlockDataFromCacheOrDownload fake.index0 fake.file_bin
                   fake.B1 (fake.service0 fake.peer_full)).1.2 = true)
    by (vm_compute; reflexivity).
  split; [exact Hok|].
  destruct (X6_fetch_then_cache_hit fake.index0 fake.file_bin fake.B1
              (fake.service0 fake.peer_full) Hok) as [Hget _].
  exact Hget.
Defined.

Lemma X8_published_file_is_cached_witness :
  existsb is_UpdateOne
    (calls_since (fake.service0 fake.peer_full)
       (process_job "file.bin" (fake.service0 fake.peer_full))) = true
  ∧ ∃ snap fi,
      fset_Snapshot (fset (fake.service0 fake.peer_full)) = inl snap ∧
      snap_GetGlobal snap "file.bin" = Some fi ∧
      Forall (λ b, (blockstorage.Get
                      (blockCache
                         (process_job "file.bin"
                            (fake.service0 fake.peer_full)))
                      (protocol.Hash b)).2 = true)
        (protocol.Blocks fi).
Proof.
  assert (Hpub : existsb is_UpdateOne
                   (calls_since (fake.service0 fake.peer_full)
                      (process_job "file.bin"
                         (fake.service0 fake.peer_full))) = true)
    by (vm_compute; reflexivity).
  split; [exact Hpub|].
  exact (X8_published_file_is_cached "file.bin"
           (fake.service0 fake.peer_full) Hpub).
Defined.

Lemma X9_file_without_blocks_is_published_witness :
  fset_Snapshot (fset (fake.service0 fake.peer_half)) = inl fake.index0
  ∧ snap_GetGlobal fake.index0 "d" = Some fake.dir_d
  ∧ protocol.Blocks fake.dir_d = []
  ∧ fset (process_job "d" (fake.service0 fake.peer_half))
    = fset_UpdateOne (fset (fake.service0 fake.peer_half))
        protocol.LocalDeviceID fake.dir_d.
Proof.
  assert (Hsnap : fset_Snapshot (fset (fake.service0 fake.peer_half))
                  = inl fake.index0) by reflexivity.
  assert (Hglobal : snap_GetGlobal fake.index0 "d" = Some fake.dir_d)
    by (vm_compute; reflexivity).
  assert (Hblocks : protocol.Blocks fake.dir_d = []) by reflexivity.
  split; [exact Hsnap|]. split; [exact Hglobal|]. split; [exact Hblocks|].
  destruct (X9_file_without_blocks_is_published "d"
              (fake.service0 fake.peer_half) fake.index0 fake.dir_d
              Hsnap Hglobal Hblocks) as [Hfset _].
  exact Hfset.
Defined.

Lemma X10_drain_empties_queue_witness :
  jobQueue.wf (backgroundDownloadQueue (fake.service_queued fake.peer_half))
  ∧ jobQueue.queued
      (backgroundDownloadQueue
         (drain_queue (fake.service_queued fake.peer_half))) = []
  ∧ filter is_Done
      (calls_since (fake.service_queued fake.peer_half)
         (drain_queue (fake.service_queued fake.peer_half)))
    = queue_Done <$>
        (jobQueue.name <$>
           jobQueue.queued
             (backgroundDownloadQueue
                (fake.service_queued fake.peer_half))).
Proof.
  split; [apply service_queued_wf|].
  destruct (X10_drain_empties_queue (fake.service_queued fake.peer_half)
              (service_queued_wf _))
    as (Hqueued & _ & _ & _ & Hdone & _).
  split; [exact Hqueued|exact Hdone].
Defined.

Lemma service_queued_wake_inv peer : wake_inv (fake.service_queued peer).
Proof.
  split; [cbn; unfold backgroundDownloadPending_cap; lia|].
  split; [apply service_queued_wf|reflexivity].
Defined.

Lemma X11_no_job_is_stranded_witness :
  wake_inv (fake.service_queued fake.peer_full)
  ∧ match Serve_backgroundDownloadTask_pass
            (fake.service_queued fake.peer_full) with
    | None =>
        jobQueue.queued
          (backgroundDownloadQueue (fake.service_queued fake.peer_full)) = []
    | Some f' =>
        jobQueue.queued (backgroundDownloadQueue f') = [] ∧
        backgroundDownloadPending f' = 0 ∧
        wake_inv f'
    end.
Proof.
  split; [apply service_queued_wake_inv|].
  destruct (X11_no_job_is_stranded (fake.service_queued fake.peer_full)
              (service_queued_wake_inv _)) as (_ & _ & Hpass).
  exact Hpass.
Defined.

Lemma X13_Scan_adopts_directories_witness :
  fset_Snapshot (fset (fake.service0 fake.peer_full)) = inl fake.index0
  ∧ filter is_UpdateOne
      (calls_since (fake.service0 fake.peer_full)
         (Scan [] (fake.service0 fake.peer_full)).2)
    = call_fset_UpdateOne protocol.LocalDeviceID <$>
        Scan_adopted fake.index0.
Proof.
  assert (Hsnap : fset_Snapshot (fset (fake.service0 fake.peer_full))
                  = inl fake.index0) by reflexivity.
  split; [exact Hsnap|].
  destruct (X13_Scan_adopts_directories [] (fake.service0 fake.peer_full)
              fake.index0 Hsnap) as [_ Hcalls].
  exact Hcalls.
Defined.

Lemma X14_Scan_requests_files_witness :
  fset_Snapshot (fset (fake.service0 fake.peer_full)) = inl fake.index0
  ∧ pushed_names
      (calls_since (fake.service0 fake.peer_full)
         (Scan [] (fake.service0 fake.peer_full)).2)
    = Scan_requested fake.index0
  ∧ Forall (λ file,
              job_is_known
                (backgroundDownloadQueue
                   (Scan [] (fake.service0 fake.peer_full)).2) file = true)
      (Scan_requested fake.index0).
Proof.
  assert (Hsnap : fset_Snapshot (fset (fake.service0 fake.peer_full))
                  = inl fake.index0) by reflexivity.
  split; [exact Hsnap|].
  destruct (X14_Scan_requests_files [] (fake.service0 fake.peer_full)
              fake.index0 Hsnap) as (Hpushed & Hknown & _).
  split; [exact Hpushed|exact Hknown].
Defined.

Lemma X15_Serve_resolve_accepts_only_witness :
  Serve_resolve (λ _, None) ":virtual:mem://:mount_at:/mnt/x"
  = Serve_goes_on ("mem://", "/mnt/x")
  ∧ if gostrings.HasPrefix ":virtual:mem://:mount_at:/mnt/x" ":virtual:" then
      ":virtual:mem://:mount_at:/mnt/x"
      = ":virtual:" +:+ "mem://" +:+ ":mount_at:" +:+ "/mnt/x" ∧
      gostrings.Index "mem://" ":mount_at:" = None ∧
      gostrings.Index "/mnt/x" ":mount_at:" = None
    else
      (λ _ : string, @None protocol.error)
        (":virtual:mem://:mount_at:/mnt/x" +:+ "_BlobStorage") = None ∧
      "mem://"
      = "file://" +:+ ":virtual:mem://:mount_at:/mnt/x"
        +:+ "_BlobStorage?no_tmp_dir=yes" ∧
      "/mnt/x" = ":virtual:mem://:mount_at:/mnt/x" +:+ "R".
Proof.
  assert (Hres : Serve_resolve (λ _, None) ":virtual:mem://:mount_at:/mnt/x"
                 = Serve_goes_on ("mem://", "/mnt/x"))
    by (vm_compute; reflexivity).
  split; [exact Hres|].
  exact (X15_Serve_resolve_accepts_only (λ _, None)
           ":virtual:mem://:mount_at:/mnt/x" "mem://" "/mnt/x" Hres).
Defined.

(** ** Package connections: private addresses and the adapters *)

Lemma byte_to_N_inj a b : Byte.to_N a = Byte.to_N b → a = b.
Proof.
  intros Hab. pose proof (Byte.of_to_N a) as Ha.
  rewrite Hab, Byte.of_to_N in Ha. by injection Ha.
Qed.

Lemma byte_eqb_to_N a b : (Byte.to_N a =? Byte.to_N b)%N = true → a = b.
Proof. intros Hab. by apply byte_to_N_inj, N.eqb_eq. Qed.

(** The mask [b&0xf0 == 16] selects the bytes from 16 to 31. *)
Lemma mask_f0_16 b :
  (N.land (Byte.to_N b) 0xf0 =? 16)%N
  = ((16 <=? Byte.to_N b)%N && (Byte.to_N b <=? 31)%N).
Proof. by destruct b. Qed.

Ltac list_of_length ip H :=
  repeat (destruct ip as [|? ip]; cbn in H; [discriminate H|];
          apply Nat.succ_inj in H);
  destruct ip; [clear H|discriminate H].

(** [To4] gives four bytes: the address itself, or the last four bytes of
    an address with the prefix of IPv4 addresses in the 16-byte form. *)
Lemma To4_Some ip ip4 :
  net.To4 ip = Some ip4 →
  ∃ a b c d, ip4 = [a; b; c; d] ∧ (ip = ip4 ∨ ip = net.IPv4 a b c d).
Proof.
  unfold net.To4. destruct (length ip =? net.IPv4len)%nat eqn:H4.
  - intros [= <-]. apply Nat.eqb_eq in H4. unfold net.IPv4len in H4.
    list_of_length ip H4. eauto 10.
  - destruct (length ip =? net.IPv6len)%nat eqn:H16; [|discriminate].
    apply Nat.eqb_eq in H16. unfold net.IPv6len in H16.
    list_of_length ip H16. unfold net.byte_at. cbn.
    repeat match goal with
           | |- context [(Byte.to_N ?b =? ?n)%N] =>
               let Hb := fresh "Hb" in
               destruct (Byte.to_N b =? n)%N eqn:Hb; cbn; [|discriminate];
               first [apply (byte_eqb_to_N b x00) in Hb
                     |apply (byte_eqb_to_N b xff) in Hb];
               subst b
           end.
    intros [= <-]. eexists _, _, _, _. split; [reflexivity|].
    right. reflexivity.
Qed.

Lemma isV4Local_private ip :
  connections.isV4Local ip
  = match net.To4 ip with
    | Some ip4 =>
        connections.is_private_v4 (net.byte_at ip4 0) (net.byte_at ip4 1)
    | None => false
    end.
Proof.
  unfold connections.isV4Local, connections.is_private_v4.
  destruct (net.To4 ip) as [ip4|]; [|reflexivity].
  unfold net.byte_at at 3. rewrite mask_f0_16.
  by rewrite andb_assoc.
Qed.

Lemma isV4Local_inv ip :
  connections.isV4Local ip = true →
  ∃ a b c d,
    (ip = [a; b; c; d] ∨ ip = net.IPv4 a b c d) ∧
    (a = x0a ∨ a = xac ∨ a = xc0) ∧
    connections.is_private_v4 (Byte.to_N a) (Byte.to_N b) = true.
Proof.
  rewrite isV4Local_private.
  destruct (net.To4 ip) as [ip4|] eqn:H4; [|discriminate].
  apply To4_Some in H4 as (a & b & c & d & -> & Hip).
  change (connections.is_private_v4 (Byte.to_N a) (Byte.to_N b) = true
          → ∃ a0 b0 c0 d0,
              (ip = [a0; b0; c0; d0] ∨ ip = net.IPv4 a0 b0 c0 d0) ∧
              (a0 = x0a ∨ a0 = xac ∨ a0 = xc0) ∧
              connections.is_private_v4 (Byte.to_N a0) (Byte.to_N b0) = true).
  intros Hp. exists a, b, c, d. split; [exact Hip|]. split; [|exact Hp].
  unfold connections.is_private_v4 in Hp.
  apply orb_prop in Hp as [Hp|Hp]; [apply orb_prop in Hp as [Hp|Hp]|].
  - apply (byte_eqb_to_N a x0a) in Hp as ->. auto.
  - apply andb_prop in Hp as [Hp _]. apply andb_prop in Hp as [Hp _].
    apply (byte_eqb_to_N a xac) in Hp as ->. auto.
  - apply andb_prop in Hp as [Hp _].
    apply (byte_eqb_to_N a xc0) in Hp as ->. auto.
Qed.

(** A private IPv4 address passes the other test of the loop, and is
    not taken for an address that contains a hardware address. *)
Lemma isV4Local_global ip :
  connections.isV4Local ip = true →
  net.IsGlobalUnicast ip = true ∧ connections.contains_mac ip = false.
Proof.
  intros (a & b & c & d & Hip & Ha & _)%isV4Local_inv.
  destruct Ha as [->|[->| ->]]; destruct Hip as [-> | ->]; split; reflexivity.
Qed.

(** X17. [isV4Local] holds exactly of the addresses of the private ranges
    10.0.0.0/8, 172.16.0.0/12 and 192.168.0.0/16, written with four bytes
    or in the 16-byte form of an IPv4 address. *)
Theorem X17_isV4Local_private_ranges ip :
  connections.isV4Local ip = true ↔
  ∃ a b c d,
    (ip = [a; b; c; d] ∨ ip = net.IPv4 a b c d) ∧
    connections.is_private_v4 (Byte.to_N a) (Byte.to_N b) = true.
Proof.
  split.
  - intros (a & b & c & d & Hip & _ & Hp)%isV4Local_inv. by exists a, b, c, d.
  - intros (a & b & c & d & Hip & Hp). rewrite isV4Local_private.
    destruct Hip as [-> | ->]; exact Hp.
Qed.

(** X18. A private IPv4 address is a global unicast address in the sense
    of the Go library, so that in [getHostPortsForAllAdapters] the test
    [IsGlobalUnicast] behind [isV4Local] never fails; it is neither
    link-local, nor a loopback address, nor the unspecified address. *)
Theorem X18_private_is_global_unicast ip :
  connections.isV4Local ip = true →
  net.IsGlobalUnicast ip = true ∧
  net.IsLinkLocalUnicast ip = false ∧
  net.IsLoopback ip = false ∧
  net.IsUnspecified ip = false.
Proof.
  intros Hlocal. destruct (isV4Local_global ip Hlocal) as [Hglobal _].
  split; [exact Hglobal|]. unfold net.IsGlobalUnicast in Hglobal.
  repeat (apply andb_prop in Hglobal as [Hglobal ?%negb_true_iff]).
  by repeat split.
Qed.

Section adapters_facts.

Variable IP_String : net.IP → string.
Variable Itoa : Z → string.
Variable GetLans : list net.IPNet * option net.error.
Variable ResolveTCPAddr : string → string → net.TCPAddr + net.error.
Variable ResolveUDPAddr : string → string → net.UDPAddr + net.error.
Variable ResolveIPAddr : string → string → net.IPAddr + net.error.

Abbreviation getHostPortsForAllAdapters :=
  (connections.getHostPortsForAllAdapters IP_String Itoa GetLans).
Abbreviation resolve :=
  (connections.resolve ResolveTCPAddr ResolveUDPAddr ResolveIPAddr).
Abbreviation getURLsForAllAdaptersIfUnspecified :=
  (connections.getURLsForAllAdaptersIfUnspecified IP_String Itoa GetLans
     ResolveTCPAddr ResolveUDPAddr ResolveIPAddr).

Lemma announced_test ip :
  (if connections.contains_mac ip then false
   else net.IsLinkLocalUnicast ip
        || (connections.isV4Local ip && net.IsGlobalUnicast ip))
  = connections.is_announced ip.
Proof.
  unfold connections.is_announced.
  destruct (connections.contains_mac ip); [reflexivity|]. cbn.
  destruct (connections.isV4Local ip) eqn:Hlocal; [|reflexivity].
  by destruct (isV4Local_global ip Hlocal) as [-> _].
Qed.

Lemma getHostPorts_loop portStr nets : ∀ hostPorts,
  foldl (λ hostPorts network,
           if connections.contains_mac (net.IPNet_IP network) then hostPorts
           else if net.IsLinkLocalUnicast (net.IPNet_IP network)
                   || (connections.isV4Local (net.IPNet_IP network)
                       && net.IsGlobalUnicast (net.IPNet_IP network))
           then hostPorts
                ++ [net.JoinHostPort (IP_String (net.IPNet_IP network))
                      portStr]
           else hostPorts)
    hostPorts nets
  = hostPorts
    ++ ((λ network,
           net.JoinHostPort (IP_String (net.IPNet_IP network)) portStr)
        <$> filter (λ network,
                      connections.is_announced (net.IPNet_IP network) = true)
              nets).
Proof.
  induction nets as [|network nets IH]; intros hostPorts; cbn [foldl].
  - by rewrite app_nil_r.
  - rewrite IH, filter_cons.
    rewrite <- (announced_test (net.IPNet_IP network)).
    destruct (connections.contains_mac (net.IPNet_IP network)).
    + by rewrite decide_False by discriminate.
    + destruct (net.IsLinkLocalUnicast (net.IPNet_IP network)
                || (connections.isV4Local (net.IPNet_IP network)
                    && net.IsGlobalUnicast (net.IPNet_IP network))).
      * rewrite decide_True by reflexivity.
        by rewrite fmap_cons, <- app_assoc.
      * by rewrite decide_False by discriminate.
Qed.

(** X19. [getHostPortsForAllAdapters] gives, in the order of the adapters
    and joined with the port, the addresses that are link-local unicast or
    private IPv4 addresses, but for those with [0xFF 0xFE] at the bytes 11
    and 12 of a 16-byte address; and nothing when the adapters cannot be
    listed. *)
Theorem X19_getHostPorts_announced port :
  getHostPortsForAllAdapters port
  = match GetLans.2 with
    | Some _ => []
    | None =>
        (λ network,
           net.JoinHostPort (IP_String (net.IPNet_IP network)) (Itoa port))
        <$> filter (λ network,
                      connections.is_announced (net.IPNet_IP network) = true)
              GetLans.1
    end.
Proof.
  unfold connections.getHostPortsForAllAdapters.
  destruct GetLans as [nets [err|]]; [reflexivity|].
  cbn [fst snd]. by rewrite getHostPorts_loop.
Qed.

(** X20. The test for a hardware address only ever removes IPv6
    addresses: an IPv4 address, with four bytes or in the 16-byte form, is
    announced as soon as it is link-local unicast or private. *)
Theorem X20_mac_test_spares_IPv4 ip :
  net.To4 ip ≠ None →
  connections.is_announced ip
  = net.IsLinkLocalUnicast ip || connections.isV4Local ip.
Proof.
  destruct (net.To4 ip) as [ip4|] eqn:H4; [intros _|done].
  apply To4_Some in H4 as (a & b & c & d & -> & [-> | ->]); [reflexivity|].
  unfold connections.is_announced.
  destruct (connections.contains_mac (net.IPv4 a b c d)) eqn:Hmac;
    [|reflexivity].
  apply (byte_eqb_to_N a xfe) in Hmac as ->. reflexivity.
Qed.

(** X21. Nothing for the other networks. For a network that is none of
    [tcp], [tcp4], [tcp6], [udp], [udp4], [udp6], [resolve] gives the port
    0: for [ip], [ip4] and [ip6] with the address of [net.ResolveIPAddr]
    and no error when the host resolves, and with [net.IPv4zero] and the
    error of the resolver when it does not; for every other network with
    [net.IPv4zero] and the error [net.UnknownNetworkError(network)]. So
    [getURLsForAllAdaptersIfUnspecified] gives no URL, also for an address
    that resolves. *)
Theorem X21_getURLs_needs_a_port network uri :
  connections.is_case network ["tcp"; "tcp4"; "tcp6"; "udp"; "udp4"; "udp6"]
  = false →
  (∀ hostPort, (resolve network hostPort).1.2 = 0%Z) ∧
  (∀ hostPort,
     if connections.is_case network ["ip"; "ip4"; "ip6"] then
       match ResolveIPAddr network hostPort with
       | inl addr =>
           resolve network hostPort = (net.IPAddr_IP addr, 0%Z, None)
       | inr err =>
           resolve network hostPort = (net.IPv4zero, 0%Z, Some err)
       end
     else
       resolve network hostPort
       = (net.IPv4zero, 0%Z, Some (net.UnknownNetworkError network))) ∧
  getURLsForAllAdaptersIfUnspecified network uri = [].
Proof.
  intros Hcase.
  assert (Htcp : connections.is_case network ["tcp"; "tcp4"; "tcp6"] = false).
  { unfold connections.is_case in *. cbn in *.
    repeat (apply orb_false_elim in Hcase as [? Hcase]).
    repeat (apply orb_false_intro; [assumption|]). reflexivity. }
  assert (Hudp : connections.is_case network ["udp"; "udp4"; "udp6"] = false).
  { unfold connections.is_case in *. cbn in *.
    repeat (apply orb_false_elim in Hcase as [? Hcase]).
    repeat (apply orb_false_intro; [assumption|]). reflexivity. }
  assert (Hport : ∀ hostPort, (resolve network hostPort).1.2 = 0%Z).
  { intros hostPort. unfold connections.resolve. rewrite Htcp, Hudp.
    destruct (connections.is_case network ["ip"; "ip4"; "ip6"]);
      [destruct (ResolveIPAddr network hostPort)|]; reflexivity. }
  split; [exact Hport|]. split.
  - intros hostPort. unfold connections.resolve. rewrite Htcp, Hudp.
    destruct (connections.is_case network ["ip"; "ip4"; "ip6"]);
      [destruct (ResolveIPAddr network hostPort)|]; reflexivity.
  - unfold connections.getURLsForAllAdaptersIfUnspecified.
    specialize (Hport (url.Host uri)).
    destruct (resolve network (url.Host uri)) as [[ip port] err].
    cbn in Hport. subst port. by rewrite orb_true_r.
Qed.

Lemma getURLs_loop uri hostPorts : ∀ addrs,
  foldl (λ addrs hostPort, addrs ++ [url.with_Host hostPort uri])
    addrs hostPorts
  = addrs ++ ((λ hostPort, url.with_Host hostPort uri) <$> hostPorts).
Proof.
  induction hostPorts as [|hostPort hostPorts IH]; intros addrs; cbn [foldl].
  - by rewrite app_nil_r.
  - by rewrite IH, fmap_cons, <- app_assoc.
Qed.

(** X22. Every URL that [getURLsForAllAdaptersIfUnspecified] gives is the
    URL it was given with another host; and when it gives one, the address
    resolved without error to a port that is not 0 and to no address or
    the unspecified address, and the hosts are those of
    [getHostPortsForAllAdapters] for that port, in order. *)
Theorem X22_getURLs_replace_host network uri :
  let addrs := getURLsForAllAdaptersIfUnspecified network uri in
  Forall (λ u, u = url.with_Host (url.Host u) uri) addrs ∧
  (addrs = [] ∨
   ∃ ip port,
     resolve network (url.Host uri) = (ip, port, None) ∧
     port ≠ 0%Z ∧
     (ip = [] ∨ net.IsUnspecified ip = true) ∧
     url.Host <$> addrs = getHostPortsForAllAdapters port).
Proof.
  unfold connections.getURLsForAllAdaptersIfUnspecified.
  destruct (resolve network (url.Host uri)) as [[ip port] err].
  destruct (bool_decide (err ≠ None) || (port =? 0)%Z) eqn:Hfail;
    [split; [constructor|by left]|].
  apply orb_false_elim in Hfail as [Herr Hport].
  apply bool_decide_eq_false in Herr. apply Z.eqb_neq in Hport.
  assert (err = None) as -> by (by destruct err; [destruct Herr|]).
  destruct (negb (length ip =? 0)%nat && negb (net.IsUnspecified ip))
    eqn:Hspec; [split; [constructor|by left]|].
  rewrite getURLs_loop, app_nil_l. cbn zeta. split.
  - apply Forall_fmap, Forall_true. intros hostPort. reflexivity.
  - right. exists ip, port. split; [reflexivity|]. split; [exact Hport|].
    split.
    + apply andb_false_iff in Hspec as [Hlen|Hun].
      * left. apply negb_false_iff, Nat.eqb_eq in Hlen.
        by destruct ip.
      * right. by apply negb_false_iff in Hun.
    + generalize (getHostPortsForAllAdapters port). intros hostPorts.
      induction hostPorts as [|hostPort hostPorts IH]; [reflexivity|].
      cbn. by rewrite IH.
Qed.

End adapters_facts.

(** ** Runs of package connections on the test doubles *)

Lemma X18_private_is_global_unicast_witness :
  connections.isV4Local fake_net.lan_ip = true
  ∧ net.IsGlobalUnicast fake_net.lan_ip = true.
Proof.
  assert (Hlocal : connections.isV4Local fake_net.lan_ip = true)
    by (vm_compute; reflexivity).
  split; [exact Hlocal|].
  destruct (X18_private_is_global_unicast fake_net.lan_ip Hlocal)
    as [Hglobal _].
  exact Hglobal.
Defined.

Lemma X20_mac_test_spares_IPv4_witness :
  net.To4 fake_net.lan_ip ≠ None
  ∧ connections.is_announced fake_net.lan_ip
    = net.IsLinkLocalUnicast fake_net.lan_ip
      || connections.isV4Local fake_net.lan_ip.
Proof.
  assert (H4 : net.To4 fake_net.lan_ip ≠ None) by (vm_compute; discriminate).
  split; [exact H4|].
  exact (X20_mac_test_spares_IPv4 fake_net.lan_ip H4).
Defined.

Lemma X21_getURLs_needs_a_port_witness :
  (connections.is_case "ip4" ["tcp"; "tcp4"; "tcp6"; "udp"; "udp4"; "udp6"]
   = false
   ∧ connections.resolve fake_net.ResolveTCPAddr fake_net.ResolveUDPAddr
       fake_net.ResolveIPAddr "ip4" (url.Host fake_net.uri)
     = (net.IPv4zero, 0%Z, None)
   ∧ connections.getURLsForAllAdaptersIfUnspecified fake_net.IP_String
       fake_net.Itoa fake_net.GetLans fake_net.ResolveTCPAddr
       fake_net.ResolveUDPAddr fake_net.ResolveIPAddr "ip4" fake_net.uri
     = [])
  ∧ (connections.is_case "unix"
       ["tcp"; "tcp4"; "tcp6"; "udp"; "udp4"; "udp6"] = false
     ∧ connections.resolve fake_net.ResolveTCPAddr fake_net.ResolveUDPAddr
         fake_net.ResolveIPAddr "unix" (url.Host fake_net.uri)
       = (net.IPv4zero, 0%Z, Some (net.UnknownNetworkError "unix"))
     ∧ connections.getURLsForAllAdaptersIfUnspecified fake_net.IP_String
         fake_net.Itoa fake_net.GetLans fake_net.ResolveTCPAddr
         fake_net.ResolveUDPAddr fake_net.ResolveIPAddr "unix" fake_net.uri
       = []).
Proof.
  assert (Hip : connections.is_case "ip4"
                  ["tcp"; "tcp4"; "tcp6"; "udp"; "udp4"; "udp6"] = false)
    by (vm_compute; reflexivity).
  assert (Hunix : connections.is_case "unix"
                    ["tcp"; "tcp4"; "tcp6"; "udp"; "udp4"; "udp6"] = false)
    by (vm_compute; reflexivity).
  destruct (X21_getURLs_needs_a_port fake_net.IP_String fake_net.Itoa
              fake_net.GetLans fake_net.ResolveTCPAddr fake_net.ResolveUDPAddr
              fake_net.ResolveIPAddr "ip4" fake_net.uri Hip)
    as (_ & Hresolve_ip & Hnil_ip).
  destruct (X21_getURLs_needs_a_port fake_net.IP_String fake_net.Itoa
              fake_net.GetLans fake_net.ResolveTCPAddr fake_net.ResolveUDPAddr
              fake_net.ResolveIPAddr "unix" fake_net.uri Hunix)
    as (_ & Hresolve_unix & Hnil_unix).
  split; (split; [assumption|split; [|assumption]]).
  - exact (Hresolve_ip (url.Host fake_net.uri)).
  - exact (Hresolve_unix (url.Host fake_net.uri)).
Defined.

(** A listen address [tcp://0.0.0.0:22000] on a host with four adapters:
    the private address and the link-local address are announced, the
    public address and the address with a hardware address are not. *)
Example adapters_of_unspecified_address :
  connections.getURLsForAllAdaptersIfUnspecified fake_net.IP_String
    fake_net.Itoa fake_net.GetLans fake_net.ResolveTCPAddr
    fake_net.ResolveUDPAddr fake_net.ResolveIPAddr "tcp" fake_net.uri
  = [url.mkURL "tcp" "" "192.168.1.10:22000" "" "" "";
     url.mkURL "tcp" "" "[fe80::1]:22000" "" "" ""].
Proof. vm_compute. reflexivity. Qed.

